(** * Avatar resolution and caching of the Thunderbird avatar plugin

    A shallow embedding of the background script's [EnhancedAvatarCardManager]
    (address handling, the source chain of [getBusinessAvatar], the generated
    initials, the insertion-ordered cache with TTL and the table of pending
    requests), followed by the properties established about it.

    Conventions of the embedding.
    - A JavaScript string is a [string]: a sequence of code units.  The case
      maps and [trim] are the ASCII ones, which is what [toLowerCase],
      [toUpperCase] and [trim] do on code units below 128; statements that
      depend on the case maps carry an [ascii_only] hypothesis.
    - JavaScript numbers that occur (timestamps, sizes, hash values) are
      integers and are modelled by [Z]; the 32-bit wrap-around of the bit
      operators is written out in [to_int32].
    - [null] and [undefined] results are [None]; a thrown exception is
      [Throw].
    - A [Map] whose iteration order matters (the cache) is an association
      list in insertion order; the table of pending requests and the settings
      object are [gmap]s. *)

From Stdlib Require Import ZArith Ascii String Numbers.DecimalString.
From stdpp Require Import base option list gmap strings fin_maps.

Local Open Scope Z_scope.

(** ** Exceptions *)

Inductive js_error :=
| ReferenceError (identifier : string)
| TypeError (message : string)
| Error (message : string).

Inductive result (A : Type) :=
| Ok (a : A)
| Throw (e : js_error).
Arguments Ok {A} a.
Arguments Throw {A} e.

(** ** JavaScript string primitives *)

Module JsString.

Definition code (c : ascii) : N := N_of_ascii c.

Definition is_upper (c : ascii) : bool := ((65 <=? code c) && (code c <=? 90))%N.
Definition is_lower (c : ascii) : bool := ((97 <=? code c) && (code c <=? 122))%N.

Definition is_letter (c : ascii) : bool := is_upper c || is_lower c.

(** The case maps as they act on code units below 128.  Above 127
    JavaScript's maps differ (they move [224..254] to [192..222] and back,
    and send [255], [181] and [223] out of the 8-bit range); addresses with
    such code units are outside the embedding, see [ascii_only]. *)
Definition toLowerCase_char (c : ascii) : ascii :=
  if is_upper c then ascii_of_N (code c + 32) else c.
Definition toUpperCase_char (c : ascii) : ascii :=
  if is_lower c then ascii_of_N (code c - 32) else c.

Fixpoint map_chars (f : ascii -> ascii) (s : string) : string :=
  match s with
  | EmptyString => EmptyString
  | String c r => String (f c) (map_chars f r)
  end.

Definition toLowerCase : string -> string := map_chars toLowerCase_char.
Definition toUpperCase : string -> string := map_chars toUpperCase_char.

Fixpoint chars (s : string) : list ascii :=
  match s with
  | EmptyString => []
  | String c r => c :: chars r
  end.

(** The strings on which the embedding of the case maps is exact. *)
Definition ascii_only (s : string) : Prop :=
  Forall (fun c => (code c < 128)%N) (chars s).

(** White space removed by [trim]: TAB, LF, VT, FF, CR, SPACE, NBSP. *)
Definition is_space (c : ascii) : bool :=
  let n := code c in
  (((9 <=? n) && (n <=? 13)) || (n =? 32) || (n =? 160))%N.

Fixpoint trimStart (s : string) : string :=
  match s with
  | EmptyString => EmptyString
  | String c r => if is_space c then trimStart r else s
  end.

Fixpoint trimEnd (s : string) : string :=
  match s with
  | EmptyString => EmptyString
  | String c r =>
      match trimEnd r with
      | EmptyString => if is_space c then EmptyString else String c EmptyString
      | r' => String c r'
      end
  end.

Definition trim (s : string) : string := trimEnd (trimStart s).

(** [s.split(sep)] for a one-character separator: never the empty list. *)
Fixpoint split (sep : ascii) (s : string) : list string :=
  match s with
  | EmptyString => [EmptyString]
  | String c r =>
      if Ascii.eqb c sep then EmptyString :: split sep r
      else match split sep r with
           | seg :: rest => String c seg :: rest
           | [] => [String c EmptyString]
           end
  end.

Fixpoint includes (c : ascii) (s : string) : bool :=
  match s with
  | EmptyString => false
  | String d r => Ascii.eqb d c || includes c r
  end.

(** [s.charAt(i)]: the empty string out of range. *)
Definition charAt (i : nat) (s : string) : string :=
  match String.get i s with
  | Some c => String c EmptyString
  | None => EmptyString
  end.

(** [s.substring(from, to)] for [from <= to]. *)
Definition substring (from to : nat) (s : string) : string :=
  String.substring from (to - from) s.

Fixpoint repeat (s : string) (n : nat) : string :=
  match n with
  | O => EmptyString
  | S n' => s +:+ repeat s n'
  end.

Definition join (l : list string) : string :=
  foldr String.append EmptyString l.

Definition startsWith (p s : string) : bool := String.prefix p s.

(** [String(n)] for an integer. *)
Definition of_Z (z : Z) : string := NilEmpty.string_of_int (Z.to_int z).

End JsString.

(** ** Address handling *)

Definition at_sign : ascii := "@".
Definition dot : ascii := ".".
Definition hyphen : ascii := "-".

(** [[^@]+$]: one or more characters other than [@], up to the end. *)
Fixpoint match_label_end (s : string) : bool :=
  match s with
  | EmptyString => false
  | String c EmptyString => negb (Ascii.eqb c at_sign)
  | String c r => negb (Ascii.eqb c at_sign) && match_label_end r
  end.

(** [[^@]+\.[^@]+$]: the first class takes one more character, and then
    either the dot and the last label follow, or the class goes on. *)
Fixpoint match_domain_end (s : string) : bool :=
  match s with
  | EmptyString => false
  | String c r =>
      negb (Ascii.eqb c at_sign) &&
      ((match r with
        | String d r' => Ascii.eqb d dot && match_label_end r'
        | EmptyString => false
        end) || match_domain_end r)
  end.

(** [email.match(/@([^@]+\.[^@]+)$/)]: the leftmost position at which the
    pattern matches; the group is everything after that [@]. *)
Fixpoint match_domain (email : string) : option string :=
  match email with
  | EmptyString => None
  | String c r =>
      if Ascii.eqb c at_sign && match_domain_end r then Some r
      else match_domain r
  end.

Definition extractDomain (email : string) : option string :=
  match email with
  | EmptyString => None
  | _ => JsString.toLowerCase <$> match_domain email
  end.

Definition localPart (email : string) : string :=
  match JsString.split at_sign email with
  | p :: _ => p
  | [] => EmptyString
  end.

Definition first_letters (parts : list string) : string :=
  JsString.join
    (map (fun part => JsString.toUpperCase (JsString.charAt 0 part)) (take 2 parts)).

Definition generateBusinessInitials (email : string) : string :=
  let localPart := localPart email in
  if JsString.includes dot localPart then
    first_letters (JsString.split dot localPart)
  else if JsString.includes hyphen localPart then
    first_letters (JsString.split hyphen localPart)
  else if (2 <=? String.length localPart)%nat then
    JsString.toUpperCase (JsString.substring 0 2 localPart)
  else
    JsString.repeat (JsString.toUpperCase (JsString.charAt 0 localPart)) 2.

(** ** Settings

    The settings object holds booleans and integers; a key that is absent
    reads as [undefined]. *)

Inductive sval :=
| SBool (b : bool)
| SNum (n : Z).

Abbreviation settings_obj := (gmap string sval).

(** [ToBoolean] of a property read. *)
Definition truthy (v : option sval) : bool :=
  match v with
  | Some (SBool b) => b
  | Some (SNum n) => negb (n =? 0)
  | None => false
  end.

(** [ToNumber] of a property read; [None] is [NaN]. *)
Definition to_number (v : option sval) : option Z :=
  match v with
  | Some (SNum n) => Some n
  | Some (SBool b) => Some (if b then 1 else 0)
  | None => None
  end.

(** [`${v}`] of a property read. *)
Definition to_string (v : option sval) : string :=
  match v with
  | Some (SNum n) => JsString.of_Z n
  | Some (SBool true) => "true"
  | Some (SBool false) => "false"
  | None => "undefined"
  end.

(** The defaults installed by the constructor. *)
Definition default_settings : settings_obj :=
  <["maxCacheSize" := SNum 200]>
  (<["cacheExpiry" := SNum (24 * 60 * 60 * 1000)]>
  (<["avatarSize" := SNum 32]>
  (<["enableFavicon" := SBool true]>
  (<["enableLogoAPI" := SBool true]>
  (<["enableGoogleFavicon" := SBool true]> ∅))))).

(** [{ ...old, ...new }]: the keys of [new] win, every other key of [old]
    is kept. *)
Definition spread (old new : settings_obj) : settings_obj := new ∪ old.

(** ** Colour selection *)

Record color_scheme := {
  primary : string;
  secondary : string;
  border : string
}.

Definition colorSchemes : list color_scheme := [
  {| primary := "#1e40af"; secondary := "#3b82f6"; border := "#1d4ed8" |};
  {| primary := "#047857"; secondary := "#10b981"; border := "#059669" |};
  {| primary := "#7c2d12"; secondary := "#ea580c"; border := "#c2410c" |};
  {| primary := "#581c87"; secondary := "#8b5cf6"; border := "#7c3aed" |};
  {| primary := "#374151"; secondary := "#6b7280"; border := "#4b5563" |};
  {| primary := "#b91c1c"; secondary := "#ef4444"; border := "#dc2626" |};
  {| primary := "#0f766e"; secondary := "#14b8a6"; border := "#0d9488" |};
  {| primary := "#92400e"; secondary := "#f59e0b"; border := "#d97706" |}
].

(** [ToInt32]: what the operands and the result of [<<] and [&] are. *)
Definition to_int32 (z : Z) : Z := (z + 2 ^ 31) mod 2 ^ 32 - 2 ^ 31.

(** One round of the loop: [hash = ((hash << 5) - hash) + char; hash = hash & hash]. *)
Definition hash_step (hash : Z) (c : ascii) : Z :=
  let hash := (to_int32 (Z.shiftl (to_int32 hash) 5) - hash) + Z.of_N (JsString.code c) in
  to_int32 (Z.land (to_int32 hash) (to_int32 hash)).

Fixpoint hash_loop (input : string) (hash : Z) : Z :=
  match input with
  | EmptyString => hash
  | String c r => hash_loop r (hash_step hash c)
  end.

(** The names bound at the top level of the background script. *)
Definition script_globals : list string :=
  ["EnhancedAvatarCardManager"; "enhancedAvatarManager"; "avatarManager";
   "ThunderbirdInjector"; "thunderbirdInjector"]%string.

(** What an identifier may be bound to where [getBusinessColors] reads one:
    a string or [null], or one of the objects of the top level. *)
Inductive binding :=
| BString (s : option string)
| BObject.

(** Reading an identifier: the enclosing function's own bindings first, then
    the top level; a name bound in neither raises [ReferenceError]. *)
Definition read_identifier (locals : list (string * option string)) (x : string)
  : result binding :=
  match list_find (fun b => bool_decide (b.1 = x)) locals with
  | Some (_, b) => Ok (BString b.2)
  | None =>
      if bool_decide (x ∈ script_globals) then Ok BObject
      else Throw (ReferenceError x)
  end.

(** [ToBoolean] of a string or [null]. *)
Definition str_truthy (v : option string) : bool :=
  match v with
  | Some EmptyString | None => false
  | Some _ => true
  end.

(** [getBusinessColors(domain)].  The only parameter is [domain]; the body
    reads [domain || email || 'default'], whose operands are evaluated from
    left to right and only as far as needed.  An object has no [length], so
    the loop would not run on one. *)
Definition getBusinessColors (domain : option string) : result (option color_scheme) :=
  let locals := [("domain"%string, domain)] in
  match
    (if str_truthy domain then Ok (default EmptyString domain)
     else match read_identifier locals "email" with
          | Ok (BString email) =>
              Ok (if str_truthy email then default EmptyString email else "default"%string)
          | Ok BObject => Ok EmptyString
          | Throw e => Throw e
          end)
  with
  | Throw e => Throw e
  | Ok input =>
      let hash := hash_loop input 0 in
      Ok (colorSchemes !! Z.to_nat (Z.rem (Z.abs hash) (Z.of_nat (length colorSchemes))))
  end.

(** ** The generated avatar *)

Inductive avatar_type := favicon | company_logo | google_favicon | business_initials.

Record avatar := {
  url : string;
  type : avatar_type;
  domain : option string;
  size : option sval;
  email : string;
  initials : option string
}.

Definition base64_alphabet : string :=
  "ABCDEFGHIJKLMNOPQRSTUVWXYZabcdefghijklmnopqrstuvwxyz0123456789+/".

Definition base64_digit (n : N) : ascii :=
  match String.get (N.to_nat n) base64_alphabet with
  | Some c => c
  | None => "="%char
  end.

(** [btoa] on code units below 256, three at a time. *)
Fixpoint btoa_codes (l : list N) : string :=
  match l with
  | [] => EmptyString
  | [a] =>
      String (base64_digit (a / 4))
        (String (base64_digit ((a mod 4) * 16)) "==")
  | [a; b] =>
      String (base64_digit (a / 4))
        (String (base64_digit ((a mod 4) * 16 + b / 16))
           (String (base64_digit ((b mod 16) * 4)) "="))
  | a :: b :: c :: rest =>
      String (base64_digit (a / 4))
        (String (base64_digit ((a mod 4) * 16 + b / 16))
           (String (base64_digit ((b mod 16) * 4 + c / 64))
              (String (base64_digit (c mod 64)) (btoa_codes rest))))
  end%N.

(** [btoa(s)].  The code's [btoa] throws on a code unit above 255; the
    template holds none, and the initials of an ASCII address hold none
    either, so for such addresses the call returns. *)
Definition btoa (s : string) : string :=
  btoa_codes (map JsString.code (JsString.chars s)).

Definition dq : string := String (ascii_of_nat 34) EmptyString.
Definition nl : string := String (ascii_of_nat 10) EmptyString.
Definition quoted (s : string) : string := dq +:+ s +:+ dq.

(** The template literal of [createBusinessInitials], before [.trim()]. *)
Definition svg_template (avatarSize : string) (colors : color_scheme) (initials : string)
  : string :=
  JsString.join [
    nl;
    "      <svg width="; quoted avatarSize; " height="; quoted avatarSize;
    " viewBox="; quoted "0 0 64 64";
    " xmlns="; quoted "http://www.w3.org/2000/svg"; ">"; nl;
    "        <defs>"; nl;
    "          <linearGradient id="; quoted "businessGrad";
    " x1="; quoted "0%"; " y1="; quoted "0%";
    " x2="; quoted "100%"; " y2="; quoted "100%"; ">"; nl;
    "            <stop offset="; quoted "0%";
    " style="; quoted ("stop-color:" +:+ primary colors +:+ ";stop-opacity:1"); " />"; nl;
    "            <stop offset="; quoted "100%";
    " style="; quoted ("stop-color:" +:+ secondary colors +:+ ";stop-opacity:1"); " />"; nl;
    "          </linearGradient>"; nl;
    "          <filter id="; quoted "shadow";
    " x="; quoted "-50%"; " y="; quoted "-50%";
    " width="; quoted "200%"; " height="; quoted "200%"; ">"; nl;
    "            <feDropShadow dx="; quoted "1"; " dy="; quoted "2";
    " stdDeviation="; quoted "2"; " flood-color="; quoted "#000000";
    " flood-opacity="; quoted "0.2"; "/>"; nl;
    "          </filter>"; nl;
    "        </defs>"; nl;
    "        <circle cx="; quoted "32"; " cy="; quoted "32"; " r="; quoted "30";
    " fill="; quoted "url(#businessGrad)"; " stroke="; quoted (border colors);
    " stroke-width="; quoted "1.5"; " filter="; quoted "url(#shadow)"; "/>"; nl;
    "        <text x="; quoted "32"; " y="; quoted "40";
    " text-anchor="; quoted "middle"; " fill="; quoted "white";
    " font-family=";
    quoted "-apple-system, BlinkMacSystemFont, 'Segoe UI', system-ui, sans-serif";
    " font-size="; quoted "18"; " font-weight="; quoted "600";
    " letter-spacing="; quoted "0.5px"; ">"; initials; "</text>"; nl;
    "      </svg>"; nl;
    "    "
  ]%string.

(** [createBusinessInitials(email, domain)], for an ASCII address: the
    only exceptions are then those of [getBusinessColors]. *)
Definition createBusinessInitials (settings : settings_obj) (email : string)
    (domain : option string) : result avatar :=
  let initials := generateBusinessInitials email in
  match getBusinessColors domain with
  | Throw e => Throw e
  | Ok None => Throw (TypeError "colors is undefined")
  | Ok (Some colors) =>
      let avatarSize := settings !! "avatarSize"%string in
      let svg := JsString.trim (svg_template (to_string avatarSize) colors initials) in
      Ok {| url := "data:image/svg+xml;base64," +:+ btoa svg;
            type := business_initials;
            domain := domain;
            size := avatarSize;
            email := email;
            initials := Some initials |}
  end.

(** ** The network and the source chain

    A [HEAD] request either fails ([None]) or yields a response.  The chain
    runs in [net]: the list of the URLs requested so far, and the value or
    the exception. *)

Record response := {
  ok : bool;
  content_type : option string
}.

Definition net (A : Type) : Type := list string * result A.

Definition ret {A} (a : A) : net A := ([], Ok a).
Definition throw {A} (e : js_error) : net A := ([], Throw e).
Definition bind {A B} (m : net A) (k : A -> net B) : net B :=
  match m with
  | (t, Ok a) => let '(t', r) := k a in (t ++ t', r)
  | (t, Throw e) => (t, Throw e)
  end.
Definition try_catch {A} (m : net A) (handler : js_error -> net A) : net A :=
  match m with
  | (t, Throw e) => let '(t', r) := handler e in (t ++ t', r)
  | _ => m
  end.

Notation "x <- m ;; k" := (bind m (fun x => k))
  (at level 100, m at next level, right associativity).

Definition knownFavicons : list (string * string) := [
  ("gmail.com", "https://ssl.gstatic.com/ui/v1/icons/mail/rfr/gmail.ico");
  ("outlook.com", "https://outlook.live.com/favicon.ico");
  ("hotmail.com", "https://outlook.live.com/favicon.ico");
  ("yahoo.com", "https://s.yimg.com/rz/l/favicon.ico");
  ("microsoft.com", "https://www.microsoft.com/favicon.ico");
  ("google.com", "https://www.google.com/favicon.ico");
  ("apple.com", "https://www.apple.com/favicon.ico");
  ("amazon.com", "https://www.amazon.com/favicon.ico");
  ("salesforce.com",
   "https://c1.sfdcstatic.com/etc/designs/sfdc-www/dist/images/favicons/favicon-32x32.png")
]%string.

(** [knownFavicons[domain]]; a domain contains a dot, so it is none of the
    property names an object literal inherits. *)
Definition getKnownBusinessFavicon (domain : string) : option string :=
  snd <$> (snd <$> list_find (fun kv => bool_decide (kv.1 = domain)) knownFavicons).

(** [`${domain}`]. *)
Definition domain_text (domain : option string) : string :=
  default "null"%string domain.

Section Resolver.

Variable fetch : string -> option response.
Variable settings : settings_obj.

Definition head_request (url : string) : net response :=
  ([url], match fetch url with
          | Some r => Ok r
          | None => Throw (TypeError "NetworkError when attempting to fetch resource.")
          end).

(** [response.ok && response.headers.get('content-type')?.startsWith('image/')]
    as a condition. *)
Definition is_image (r : response) : bool :=
  ok r && match content_type r with
          | Some ct => JsString.startsWith "image/" ct
          | None => false
          end.

Definition validateImageUrl (url : string) : net bool :=
  try_catch (r <- head_request url ;; ret (is_image r)) (fun _ => ret false).

Definition faviconUrls (domain : string) : list string := [
  "https://" +:+ domain +:+ "/favicon.ico";
  "https://www." +:+ domain +:+ "/favicon.ico";
  "https://" +:+ domain +:+ "/assets/favicon.ico";
  "https://" +:+ domain +:+ "/images/favicon.ico";
  "https://" +:+ domain +:+ "/favicon.png";
  "https://" +:+ domain +:+ "/apple-touch-icon.png"
]%string.

Fixpoint first_valid (domain : string) (urls : list string) : net string :=
  match urls with
  | [] => throw (Error ("No favicon found for " +:+ domain))
  | u :: rest =>
      valid <- validateImageUrl u ;;
      if valid then ret u else first_valid domain rest
  end.

Definition getFaviconUrl (domain : option string) : net string :=
  if negb (str_truthy domain) then throw (Error "No domain provided")
  else
    let domain := default EmptyString domain in
    match getKnownBusinessFavicon domain with
    | Some known => ret known
    | None => first_valid domain (faviconUrls domain)
    end.

Definition getCompanyLogo (domain : option string) : net string :=
  if negb (str_truthy domain) then throw (Error "No domain provided")
  else
    let domain := default EmptyString domain in
    let clearbitUrl := ("https://logo.clearbit.com/" +:+ domain)%string in
    r <- head_request clearbitUrl ;;
    if is_image r then ret clearbitUrl
    else throw (Error ("Company logo not found for " +:+ domain)).

Definition descriptor (u : string) (t : avatar_type) (domain : option string)
    (email : string) : avatar :=
  {| url := u; type := t; domain := domain;
     size := settings !! "avatarSize"%string; email := email; initials := None |}.

(** One stage of the chain: [Some] when the stage returns from
    [getBusinessAvatar], [None] when control falls through; an exception
    inside the stage is caught and falls through too. *)
Definition stage (enabled : string) (candidate : net string) (t : avatar_type)
    (domain : option string) (email : string) : net (option avatar) :=
  if truthy (settings !! enabled) then
    try_catch
      (u <- candidate ;;
       valid <- validateImageUrl u ;;
       ret (if valid then Some (descriptor u t domain email) else None))
      (fun _ => ret None)
  else ret None.

Definition getBusinessAvatar (email : string) : net avatar :=
  let domain := extractDomain email in
  r1 <- stage "enableFavicon" (getFaviconUrl domain) favicon domain email ;;
  match r1 with
  | Some a => ret a
  | None =>
  r2 <- stage "enableLogoAPI" (getCompanyLogo domain) company_logo domain email ;;
  match r2 with
  | Some a => ret a
  | None =>
  r3 <- stage "enableGoogleFavicon"
          (ret ("https://www.google.com/s2/favicons?domain=" +:+ domain_text domain
                +:+ "&sz=" +:+ to_string (settings !! "avatarSize"%string))%string)
          google_favicon domain email ;;
  match r3 with
  | Some a => ret a
  | None => ([], createBusinessInitials settings email domain)
  end end end.

Definition fetchAvatar (email : string) : net avatar := getBusinessAvatar email.

End Resolver.

(** ** A [Map] with string keys, in insertion order *)

Module JsMap.
Section JsMap.
Context {V : Type}.

Definition t := list (string * V).

(** Every key occurs once: [set] and [delete] keep it that way. *)
Definition keys (m : t) : list string := m.*1.
Definition size (m : t) : nat := length m.

Fixpoint get (k : string) (m : t) : option V :=
  match m with
  | [] => None
  | (k', v) :: r => if decide (k' = k) then Some v else get k r
  end.

(** [set]: a key that is present keeps its place, a new key goes last. *)
Fixpoint set (k : string) (v : V) (m : t) : t :=
  match m with
  | [] => [(k, v)]
  | (k', v') :: r => if decide (k' = k) then (k, v) :: r else (k', v') :: set k v r
  end.

Fixpoint delete (k : string) (m : t) : t :=
  match m with
  | [] => []
  | (k', v') :: r => if decide (k' = k) then r else (k', v') :: delete k r
  end.

(** [m.keys().next().value] *)
Definition first_key (m : t) : option string := head (keys m).

(** [m.delete(k)] where [k] may be [undefined], which is no key of [m]. *)
Definition delete_opt (k : option string) (m : t) : t :=
  match k with
  | Some k => delete k m
  | None => m
  end.

End JsMap.
Arguments t : clear implicits.
End JsMap.

(** ** The manager *)

Record cache_entry := {
  data : avatar;
  timestamp : Z
}.

(** The state of an [EnhancedAvatarCardManager].  [cache], [pendingRequests]
    and [settings] are its fields; [storage] is the value kept under
    [avatarSettings] in the extension's storage.  A promise returned by
    [fetchAvatar] is identified by its index in [promises], which records the
    address each call of [fetchAvatar] was made for; [settled] holds the
    promises that have settled. *)
Record manager := {
  cache : JsMap.t cache_entry;
  pendingRequests : gmap string nat;
  settings : settings_obj;
  storage : option settings_obj;
  promises : list string;
  settled : gset nat
}.

(** The manager as the constructor leaves it, where [stored] is what the
    storage holds from an earlier session. *)
Definition installed (stored : option settings_obj) : manager :=
  {| cache := []; pendingRequests := ∅; settings := default_settings;
     storage := stored; promises := []; settled := ∅ |}.

Definition new_manager : manager := installed None.

(** [init()]: the stored settings, if any, are merged over the defaults. *)
Definition init (m : manager) : manager :=
  match storage m with
  | Some stored =>
      {| cache := cache m; pendingRequests := pendingRequests m;
         settings := spread (settings m) stored; storage := storage m;
         promises := promises m; settled := settled m |}
  | None => m
  end.

Definition with_cache (c : JsMap.t cache_entry) (m : manager) : manager :=
  {| cache := c; pendingRequests := pendingRequests m; settings := settings m;
     storage := storage m; promises := promises m; settled := settled m |}.

Definition with_pending (pr : gmap string nat) (m : manager) : manager :=
  {| cache := cache m; pendingRequests := pr; settings := settings m;
     storage := storage m; promises := promises m; settled := settled m |}.

(** [a < b] and the like where [b] is a property read: false on [NaN]. *)
Definition lt_number (a : Z) (b : option Z) : bool :=
  match b with Some b => a <? b | None => false end.
Definition gt_number (a : Z) (b : option Z) : bool :=
  match b with Some b => a >? b | None => false end.
Definition ge_number (a : Z) (b : option Z) : bool :=
  match b with Some b => a >=? b | None => false end.

(** [cached && Date.now() - cached.timestamp < this.settings.cacheExpiry] *)
Definition fresh (now : Z) (m : manager) (cached : option cache_entry) : bool :=
  match cached with
  | Some c => lt_number (now - timestamp c) (to_number (settings m !! "cacheExpiry"%string))
  | None => false
  end.

(** [this.cache.size >= this.settings.maxCacheSize] *)
Definition at_capacity (m : manager) : bool :=
  ge_number (Z.of_nat (JsMap.size (cache m)))
            (to_number (settings m !! "maxCacheSize"%string)).

Definition cacheAvatar (now : Z) (email : string) (d : avatar) (m : manager) : manager :=
  let c := cache m in
  let c :=
    if at_capacity m then JsMap.delete_opt (JsMap.first_key c) c
    else c in
  with_cache (JsMap.set email {| data := d; timestamp := now |} c) m.

Definition cleanCache (now : Z) (m : manager) : manager :=
  with_cache
    (filter (fun kv => negb (gt_number (now - timestamp kv.2)
                               (to_number (settings m !! "cacheExpiry"%string))))
            (cache m)) m.

(** [updateSettings(newSettings)].  [this.avatarManager] is [this] from the
    constructor on, so the branch that copies the settings to another object
    is not taken; the merged settings are written to the storage. *)
Definition updateSettings (newSettings : settings_obj) (m : manager)
  : settings_obj * manager :=
  let merged := spread (settings m) newSettings in
  (merged,
   {| cache := cache m; pendingRequests := pendingRequests m; settings := merged;
      storage := Some merged; promises := promises m; settled := settled m |}).

Definition clearCache (m : manager) : manager := with_cache [] m.

(** [getCacheStats()]: [size] and [maxSize], where [maxCacheSize || 200]. *)
Definition getCacheStats (m : manager) : nat * option sval :=
  (JsMap.size (cache m),
   if truthy (settings m !! "maxCacheSize"%string) then settings m !! "maxCacheSize"%string
   else Some (SNum 200)).

(** *** [getAvatar]

    The argument is whatever the message carries. *)
Inductive jsval :=
| VUndefined
| VNull
| VBoolean (b : bool)
| VNumber (n : Z)
| VString (s : string).

Definition to_boolean (v : jsval) : bool :=
  match v with
  | VUndefined | VNull => false
  | VBoolean b => b
  | VNumber n => negb (n =? 0)
  | VString s => negb (bool_decide (s = EmptyString))
  end.

Definition normalize (email : string) : string :=
  JsString.trim (JsString.toLowerCase email).

(** How a call of [getAvatar] leaves its synchronous part. *)
Inductive outcome :=
| Returned (v : option avatar)   (* [null], or the cached descriptor *)
| Joined (p : nat)               (* the promise found in [pendingRequests] *)
| Awaiting (p : nat)             (* suspended in [await promise] on a new promise *)
| Threw (e : js_error).

(** [getAvatar(email)] up to its first suspension: everything before
    [await promise] runs without interruption. *)
Definition getAvatar_sync (now : Z) (email : jsval) (m : manager) : outcome * manager :=
  if negb (to_boolean email) then (Returned None, m)
  else match email with
  | VString email =>
      let normalizedEmail := normalize email in
      let cached := JsMap.get normalizedEmail (cache m) in
      if fresh now m cached then (Returned (data <$> cached), m)
      else match pendingRequests m !! normalizedEmail with
      | Some p => (Joined p, m)
      | None =>
          let p := length (promises m) in
          (Awaiting p,
           {| cache := cache m;
              pendingRequests := <[normalizedEmail := p]> (pendingRequests m);
              settings := settings m; storage := storage m;
              promises := promises m ++ [normalizedEmail];
              settled := settled m |})
      end
  | _ => (Threw (TypeError "email.toLowerCase is not a function"), m)
  end.

(** The rest of [getAvatar] for the call that started the promise, run when
    the promise settles with [r]: the [try] block caches and returns the
    result, the exception passes through, and [finally] removes the pending
    entry in both cases. *)
Definition getAvatar_resume (now : Z) (normalizedEmail : string) (r : result avatar)
    (m : manager) : result avatar * manager :=
  let m' := match r with
            | Ok a => cacheAvatar now normalizedEmail a m
            | Throw _ => m
            end in
  (r, with_pending (delete normalizedEmail (pendingRequests m')) m').

(** *** The event loop

    The manager runs in one thread: between two suspensions nothing else
    runs.  An event is one such uninterrupted piece. *)
Inductive event :=
| Init
| Call (now : Z) (email : jsval)
| Settle (now : Z) (p : nat) (r : result avatar)
| UpdateSettings (newSettings : settings_obj)
| CleanCache (now : Z)
| ClearCache.


(** A promise settles once, and only after it was created. *)
Definition exec (ev : event) (m : manager) : option manager :=
  match ev with
  | Init => Some (init m)
  | Call now email => Some (getAvatar_sync now email m).2
  | Settle now p r =>
      match promises m !! p with
      | Some address =>
          if decide (p ∈ settled m) then None
          else
            let m' := (getAvatar_resume now address r m).2 in
            Some {| cache := cache m'; pendingRequests := pendingRequests m';
                    settings := settings m'; storage := storage m';
                    promises := promises m'; settled := {[p]} ∪ settled m' |}
      | None => None
      end
  | UpdateSettings s => Some (updateSettings s m).2
  | CleanCache now => Some (cleanCache now m)
  | ClearCache => Some (clearCache m)
  end.

Fixpoint run (evs : list event) (m : manager) : option manager :=
  match evs with
  | [] => Some m
  | ev :: rest => m' ← exec ev m; run rest m'
  end.

Definition reachable (m : manager) : Prop :=
  ∃ stored evs, run evs (installed stored) = Some m.




(** ** Sample environments and values *)

(** No request gets an answer. *)
Definition offline : string -> option response := fun _ => None.

(** Every request is answered with an image. *)
Definition always_image : string -> option response :=
  fun _ => Some {| ok := true; content_type := Some "image/png"%string |}.

(** The options named by the settings collaborator's interface. *)
Definition fallback_service_options : settings_obj :=
  <["enableFavicon" := SBool false]>
  (<["enableLogoAPI" := SBool false]>
  (<["enableFallbackService" := SBool false]> ∅)).

Definition sample_avatar (email : string) : avatar :=
  {| url := "https://example.org/favicon.ico"; type := favicon;
     domain := Some "example.org"%string; size := Some (SNum 32);
     email := email; initials := None |}.

(** A manager whose cache holds at most two entries. *)
Definition small_manager : manager :=
  (updateSettings (<["maxCacheSize" := SNum 2]> ∅) new_manager).2.

(** A run of insertions, each with its time, address and descriptor. *)
Definition insert_all (ins : list (Z * string * avatar)) (m : manager) : manager :=
  foldl (fun m i => cacheAvatar i.1.1 i.1.2 i.2 m) m ins.

(** Two resolutions fill the small cache: [a@x.com] first, then [b@x.com]. *)
Definition fill_small_cache : list event := [
  Call 1 (VString "a@x.com");
  Settle 2 0 (Ok (sample_avatar "a@x.com"));
  Call 3 (VString "b@x.com");
  Settle 4 1 (Ok (sample_avatar "b@x.com"))
].

(** Then [a@x.com] is read, and [c@x.com] is resolved and inserted. *)
Definition read_then_insert : list event := [
  Call 5 (VString "a@x.com");
  Call 6 (VString "c@x.com");
  Settle 7 2 (Ok (sample_avatar "c@x.com"))
].

Definition full_manager : manager :=
  insert_all [(1, "a@x.com"%string, sample_avatar "a@x.com");
              (2, "b@x.com"%string, sample_avatar "b@x.com")] small_manager.

(** ** Further definitions

    Parts of the background script beside the cache and the chain, and the
    predicates the further properties are stated with. *)

(** The URL is an HTTPS one. *)
Definition is_https (u : string) : bool := JsString.startsWith "https://" u.

(** What [validateImageUrl] answers for a URL on a given network. *)
Definition validated (fetch : string -> option response) (u : string) : bool :=
  match fetch u with
  | Some r => is_image r
  | None => false
  end.

(** What holds of the cache and the settings in every state the manager
    reaches: the keys of the cache are distinct, canonical and among the
    addresses resolved so far, and every default option is still set. *)
Definition cache_inv (m : manager) : Prop :=
  NoDup (JsMap.keys (cache m))
  ∧ (∀ n, n ∈ promises m → normalize n = n)
  ∧ (∀ k, k ∈ JsMap.keys (cache m) → k ∈ promises m)
  ∧ (∀ k, is_Some (default_settings !! k) → is_Some (settings m !! k)).

(** The small manager after the two resolutions of [fill_small_cache]. *)
Definition filled_manager : manager :=
  default new_manager
    (run (UpdateSettings (<["maxCacheSize" := SNum 2]> ∅) :: fill_small_cache) new_manager).

(** The state after a run of events from a fresh manager. *)
Definition state_after (evs : list event) : manager :=
  default new_manager (run evs new_manager).

(** A cache of three entries whose oldest key holds a young entry:
    [a@x.com] is resolved again after its entry has expired, which replaces
    the entry in place; [b@x.com] is not, and expires. *)
Definition refreshed_first : list event := [
  UpdateSettings (<["maxCacheSize" := SNum 3]> ∅);
  Call 1 (VString "a@x.com");
  Settle 2 0 (Ok (sample_avatar "a@x.com"));
  Call 3 (VString "b@x.com");
  Settle 4 1 (Ok (sample_avatar "b@x.com"));
  Call 86400003 (VString "a@x.com");
  Settle 86400003 2 (Ok (sample_avatar "a@x.com"));
  Call 86400004 (VString "d@x.com");
  Settle 86400004 3 (Ok (sample_avatar "d@x.com"))
].

(** Then [c@x.com] is resolved and inserted. *)
Definition resolve_c : list event := [
  Call 86400006 (VString "c@x.com");
  Settle 86400006 4 (Ok (sample_avatar "c@x.com"))
].

(** [simpleHash(str)]: the loop of [getBusinessColors], then [Math.abs]. *)
Definition simpleHash (str : string) : Z := Z.abs (hash_loop str 0).

Definition hex_digit (n : Z) : ascii :=
  match String.get (Z.to_nat n) "0123456789abcdef" with
  | Some c => c
  | None => "0"%char
  end.

(** [n.toString(16)] for an integer [n >= 0]: the digits from the last one
    on; [fuel] is the number of digits at most. *)
Fixpoint hex_from (fuel : nat) (n : Z) (acc : string) : string :=
  match fuel with
  | O => acc
  | S fuel' =>
      let acc' := String (hex_digit (n mod 16)) acc in
      if n / 16 =? 0 then acc' else hex_from fuel' (n / 16) acc'
  end.

Definition toString16 (n : Z) : string :=
  hex_from (S (Z.to_nat (Z.log2 n))) n EmptyString.

(** [s.padStart(len, fill)] for a one-character [fill]. *)
Definition padStart (len : nat) (fill : ascii) (s : string) : string :=
  JsString.repeat (String fill EmptyString) (len - String.length s) +:+ s.

(** [md5Hash(str)]: the same loop again, in hexadecimal. *)
Definition md5Hash (str : string) : string :=
  padStart 8 "0" (toString16 (Z.abs (hash_loop str 0))).

(** *** Messages

    A message is an object; of its properties the handler and the pages that
    send messages use [type], [action], [email] and [settings]. *)
Record message := {
  msg_type : option string;
  msg_action : option string;
  msg_email : jsval;
  msg_settings : option settings_obj
}.

Inductive payload :=
| PAvatar (v : option avatar)
| PSettings (s : settings_obj)
| PCleared
| PStats (size : nat) (maxSize : option sval).

(** What is passed to [sendResponse]. *)
Inductive response_obj :=
| Success (p : payload)
| Failure (error : string).

Definition error_message (e : js_error) : string :=
  match e with
  | ReferenceError x => x +:+ " is not defined"
  | TypeError msg => msg
  | Error msg => msg
  end.

(** How [handleMessage] leaves its synchronous part: with the response sent,
    or waiting for a promise whose settlement decides the response. *)
Inductive handled :=
| Responded (r : response_obj)
| Waiting (p : nat).

Definition handleMessage (now : Z) (msg : message) (m : manager) : handled * manager :=
  match msg_type msg with
  | Some t =>
      if decide (t = "getAvatar"%string) then
        match getAvatar_sync now (msg_email msg) m with
        | (Returned v, m') => (Responded (Success (PAvatar v)), m')
        | (Threw e, m') => (Responded (Failure (error_message e)), m')
        | (Joined p, m') => (Waiting p, m')
        | (Awaiting p, m') => (Waiting p, m')
        end
      else if decide (t = "updateSettings"%string) then
        let '(merged, m') := updateSettings (default ∅ (msg_settings msg)) m in
        (Responded (Success (PSettings merged)), m')
      else if decide (t = "clearCache"%string) then
        (Responded (Success PCleared), clearCache m)
      else if decide (t = "getCacheStats"%string) then
        (Responded (Success (PStats (getCacheStats m).1 (getCacheStats m).2)), m)
      else (Responded (Failure "Unknown message type"), m)
  | None => (Responded (Failure "Unknown message type"), m)
  end.

(** The messages the pages build: [createAvatarCard] of the content script,
    and [saveSettings], [clearCache] and [loadStats] of the options page. *)
Definition createAvatarCard_message (email : string) : message :=
  {| msg_type := None; msg_action := Some "getAvatar"%string;
     msg_email := VString email; msg_settings := None |}.
Definition saveSettings_message (newSettings : settings_obj) : message :=
  {| msg_type := None; msg_action := Some "updateSettings"%string;
     msg_email := VUndefined; msg_settings := Some newSettings |}.
Definition clearCache_message : message :=
  {| msg_type := None; msg_action := Some "clearCache"%string;
     msg_email := VUndefined; msg_settings := None |}.
Definition loadStats_message : message :=
  {| msg_type := None; msg_action := Some "getCacheStats"%string;
     msg_email := VUndefined; msg_settings := None |}.

(** *** The injector *)

(** [haystack.includes(needle)] *)
Fixpoint includes_str (needle haystack : string) : bool :=
  String.prefix needle haystack
  || match haystack with
     | EmptyString => false
     | String _ rest => includes_str needle rest
     end.

Definition isThunderbirdUrl (url : option string) : bool :=
  if negb (str_truthy url) then false
  else
    let url := default EmptyString url in
    includes_str "chrome://messenger/" url
    || includes_str "about:3pane" url
    || includes_str "about:message" url
    || includes_str "messenger.xhtml" url
    || includes_str "messenger.xul" url.




(** * Properties *)

(** ** The terminal branch of the chain *)

Lemma color_index_in_range (h : Z) :
  is_Some (colorSchemes !! Z.to_nat (Z.rem (Z.abs h) (Z.of_nat (length colorSchemes)))).
Proof.
  apply lookup_lt_is_Some.
  change (length colorSchemes) with 8%nat.
  pose proof (Z.rem_bound_pos (Z.abs h) 8 (Z.abs_nonneg h)) as Hb.
  change (Z.of_nat 8) with 8. lia.
Qed.

Lemma getBusinessColors_present (d : string) :
  str_truthy (Some d) = true →
  ∃ c, getBusinessColors (Some d) = Ok (Some c).
Proof.
  intros Hd. unfold getBusinessColors. rewrite Hd.
  change (default EmptyString (Some d)) with d.
  destruct (color_index_in_range (hash_loop d 0)) as [c Hc].
  exists c. cbv zeta. by rewrite Hc.
Qed.

Lemma createBusinessInitials_present (settings : settings_obj) (email d : string) :
  str_truthy (Some d) = true →
  ∃ a, createBusinessInitials settings email (Some d) = Ok a
       ∧ type a = business_initials
       ∧ initials a = Some (generateBusinessInitials email).
Proof.
  intros Hd. destruct (getBusinessColors_present d Hd) as [c Hc].
  unfold createBusinessInitials. rewrite Hc. eauto.
Qed.

Lemma getBusinessColors_absent : getBusinessColors None = Throw (ReferenceError "email").
Proof. reflexivity. Qed.

Lemma createBusinessInitials_absent (settings : settings_obj) (email : string) :
  createBusinessInitials settings email None = Throw (ReferenceError "email").
Proof. unfold createBusinessInitials. by rewrite getBusinessColors_absent. Qed.

(** Without a domain and without an answer from the network, every stage
    that is enabled declines and the chain ends in the terminal branch. *)
Lemma getBusinessAvatar_offline_absent (settings : settings_obj) (email : string) :
  extractDomain email = None →
  (getBusinessAvatar offline settings email).2 = Throw (ReferenceError "email").
Proof.
  intros Hd. unfold getBusinessAvatar, stage. rewrite Hd.
  destruct (truthy (settings !! "enableFavicon"%string));
    destruct (truthy (settings !! "enableLogoAPI"%string));
    destruct (truthy (settings !! "enableGoogleFavicon"%string));
    cbn; apply createBusinessInitials_absent.
Qed.

(** C1.  The terminal branch fails when the derived domain is absent:
    [getBusinessColors] reads the identifier [email], which is bound nowhere,
    so [createBusinessInitials] raises [ReferenceError] for every address
    without a domain, and with it every resolution of such an address (like
    [user@localhost]) that no network stage answers. *)
Theorem createBusinessInitials_absent_domain_throws :
  (∀ (settings : settings_obj) (email : string),
      createBusinessInitials settings email None = Throw (ReferenceError "email"))
  ∧ (∀ (settings : settings_obj) (email : string),
      extractDomain email = None →
      (getBusinessAvatar offline settings email).2 = Throw (ReferenceError "email"))
  ∧ extractDomain "user@localhost" = None
  ∧ getBusinessAvatar offline default_settings "user@localhost"
    = (["https://www.google.com/s2/favicons?domain=null&sz=32"%string],
       Throw (ReferenceError "email")).
Proof.
  split; [exact createBusinessInitials_absent |].
  split; [exact getBusinessAvatar_offline_absent |].
  split; [reflexivity | by vm_compute].
Qed.

(** ** Addresses without a domain *)

Lemma match_domain_no_at (s : string) :
  JsString.includes at_sign s = false → match_domain s = None.
Proof.
  induction s as [| c r IH]; [done |].
  cbn [JsString.includes match_domain]. intros H.
  apply orb_false_iff in H as [Hc Hr]. rewrite Hc. cbn. auto.
Qed.

Lemma extractDomain_no_at (s : string) :
  JsString.includes at_sign s = false → extractDomain s = None.
Proof.
  intros H. destruct s; [done |]. unfold extractDomain.
  by rewrite (match_domain_no_at _ H).
Qed.

Lemma match_domain_end_nonempty (s : string) :
  match_domain_end s = true → s ≠ EmptyString.
Proof. by destruct s. Qed.

Lemma match_domain_Some (s d : string) :
  match_domain s = Some d → match_domain_end d = true.
Proof.
  induction s as [| c r IH]; [done |]. cbn [match_domain].
  destruct (Ascii.eqb c at_sign && match_domain_end r) eqn:E.
  - intros [= <-]. by apply andb_true_iff in E as [_ ?].
  - exact IH.
Qed.

Lemma extractDomain_truthy (email d : string) :
  extractDomain email = Some d → str_truthy (Some d) = true.
Proof.
  unfold extractDomain. destruct email as [| c r]; [done |].
  destruct (match_domain (String c r)) as [d' |] eqn:E; [| done].
  cbn. intros [= <-]. apply match_domain_Some, match_domain_end_nonempty in E.
  destruct d'; [done |]. reflexivity.
Qed.

Lemma to_boolean_string (s : string) :
  s ≠ EmptyString → to_boolean (VString s) = true.
Proof. intros H. cbn. by rewrite bool_decide_eq_false_2. Qed.

Lemma getAvatar_sync_miss (now : Z) (s : string) (m : manager) :
  s ≠ EmptyString →
  fresh now m (JsMap.get (normalize s) (cache m)) = false →
  pendingRequests m !! normalize s = None →
  getAvatar_sync now (VString s) m =
    (Awaiting (length (promises m)),
     {| cache := cache m;
        pendingRequests := <[normalize s := length (promises m)]> (pendingRequests m);
        settings := settings m; storage := storage m;
        promises := promises m ++ [normalize s];
        settled := settled m |}).
Proof.
  intros Hs Hf Hp. unfold getAvatar_sync.
  rewrite (to_boolean_string _ Hs). cbn [negb]. by rewrite Hf, Hp.
Qed.

Lemma getAvatar_sync_join (now : Z) (s : string) (m : manager) (p : nat) :
  s ≠ EmptyString →
  fresh now m (JsMap.get (normalize s) (cache m)) = false →
  pendingRequests m !! normalize s = Some p →
  getAvatar_sync now (VString s) m = (Joined p, m).
Proof.
  intros Hs Hf Hp. unfold getAvatar_sync.
  rewrite (to_boolean_string _ Hs). cbn [negb]. by rewrite Hf, Hp.
Qed.

(** C2, as stated, fails: [not-an-email] has no domain, and [getAvatar]
    still calls [fetchAvatar] for it; with no network the chain then requests
    the third stage's URL for the domain [null].  The same holds for
    [user@localhost], which has its one [@] but no dotted label after it. *)
Lemma not_an_email_reaches_resolver :
  extractDomain (normalize "not-an-email") = None
  ∧ getAvatar_sync 0 (VString "not-an-email") new_manager
    = (Awaiting 0,
       {| cache := []; pendingRequests := {[ "not-an-email"%string := 0%nat ]};
          settings := default_settings; storage := None;
          promises := ["not-an-email"%string]; settled := ∅ |})
  ∧ fst (getBusinessAvatar offline default_settings "not-an-email")
    = ["https://www.google.com/s2/favicons?domain=null&sz=32"%string]
  ∧ extractDomain (normalize "user@localhost") = None
  ∧ (getAvatar_sync 0 (VString "user@localhost") new_manager).1 = Awaiting 0
  ∧ promises (getAvatar_sync 0 (VString "user@localhost") new_manager).2
    = ["user@localhost"%string].
Proof. vm_compute. done. Qed.

(** C2, amended.  No address is rejected for its form: for a non-empty input
    whose derived domain is absent, [getAvatar] calls [fetchAvatar] on the
    trimmed, lower-cased input unless a fresh cache entry or a pending
    request exists for it. *)
Theorem getAvatar_resolves_without_domain (now : Z) (s : string) (m : manager) :
  s ≠ EmptyString →
  extractDomain (normalize s) = None →
  fresh now m (JsMap.get (normalize s) (cache m)) = false →
  pendingRequests m !! normalize s = None →
  (getAvatar_sync now (VString s) m).1 = Awaiting (length (promises m))
  ∧ promises (getAvatar_sync now (VString s) m).2 = promises m ++ [normalize s]
  ∧ pendingRequests (getAvatar_sync now (VString s) m).2 !! normalize s
    = Some (length (promises m)).
Proof.
  intros Hs _ Hf Hp. rewrite (getAvatar_sync_miss now s m Hs Hf Hp). cbn.
  by rewrite lookup_insert_eq.
Qed.

Lemma getAvatar_resolves_without_domain_witness :
  (getAvatar_sync 5 (VString "Not-An-Email ") new_manager).1 = Awaiting 0
  ∧ promises (getAvatar_sync 5 (VString "Not-An-Email ") new_manager).2
    = [] ++ [normalize "Not-An-Email "]
  ∧ pendingRequests (getAvatar_sync 5 (VString "Not-An-Email ") new_manager).2
      !! normalize "Not-An-Email " = Some 0%nat.
Proof.
  apply (getAvatar_resolves_without_domain 5 "Not-An-Email " new_manager).
  - discriminate.
  - reflexivity.
  - reflexivity.
  - reflexivity.
Defined.

(** ** Disabled stages *)

Lemma bind_ret_l {A B} (a : A) (k : A -> net B) : bind (ret a) k = k a.
Proof. unfold bind, ret. by destruct (k a). Qed.

Lemma stage_disabled fetch (settings : settings_obj) enabled candidate t d e :
  truthy (settings !! enabled) = false →
  stage fetch settings enabled candidate t d e = ret None.
Proof. intros H. unfold stage. by rewrite H. Qed.

Lemma spread_lookup_new (old new : settings_obj) (k : string) (v : sval) :
  new !! k = Some v → spread old new !! k = Some v.
Proof. intros H. unfold spread. by apply lookup_union_Some_l. Qed.

Lemma spread_lookup_old (old new : settings_obj) (k : string) :
  new !! k = None → spread old new !! k = old !! k.
Proof. intros H. unfold spread. by apply lookup_union_r. Qed.

(** C3, as stated, fails: [enableFallbackService] is no option the chain
    reads.  After an update with the three options of the interface the
    third stage is still enabled, its URL is requested, and a reachable
    service supplies the avatar. *)
Lemma enableFallbackService_leaves_stage_enabled :
  settings (updateSettings fallback_service_options new_manager).2
    !! "enableGoogleFavicon"%string = Some (SBool true)
  ∧ fst (getBusinessAvatar offline
           (settings (updateSettings fallback_service_options new_manager).2)
           "user@example.org")
    = ["https://www.google.com/s2/favicons?domain=example.org&sz=32"%string]
  ∧ type <$> (match snd (getBusinessAvatar always_image
                 (settings (updateSettings fallback_service_options new_manager).2)
                 "user@example.org") with Ok a => Some a | Throw _ => None end)
    = Some google_favicon.
Proof. vm_compute. done. Qed.

(** C3, amended.  After an update that sets [enableFavicon],
    [enableLogoAPI] and [enableGoogleFavicon] to false, the resolution of an
    ASCII address requests nothing from the network, whatever the network
    would answer, and is the terminal branch; for an ASCII address with a
    domain that branch yields the generated initials.  (Outside ASCII the
    upper-case initials can leave the range [btoa] accepts, and the terminal
    branch can throw.) *)
Theorem disabled_stages_go_to_initials (m : manager) (newSettings : settings_obj)
    (fetch : string -> option response) (email : string) :
  JsString.ascii_only email →
  newSettings !! "enableFavicon"%string = Some (SBool false) →
  newSettings !! "enableLogoAPI"%string = Some (SBool false) →
  newSettings !! "enableGoogleFavicon"%string = Some (SBool false) →
  getBusinessAvatar fetch (settings (updateSettings newSettings m).2) email
  = ([], createBusinessInitials (settings (updateSettings newSettings m).2) email
           (extractDomain email))
  ∧ (∀ d, extractDomain email = Some d →
       ∃ a, getBusinessAvatar fetch (settings (updateSettings newSettings m).2) email
            = ([], Ok a)
            ∧ type a = business_initials).
Proof.
  intros _ H1 H2 H3. cbn [updateSettings snd settings].
  set (s := spread (settings m) newSettings).
  assert (Heq : getBusinessAvatar fetch s email
                = ([], createBusinessInitials s email (extractDomain email))).
  { assert (F1 : truthy (s !! "enableFavicon"%string) = false)
      by (subst s; by rewrite (spread_lookup_new _ _ _ _ H1)).
    assert (F2 : truthy (s !! "enableLogoAPI"%string) = false)
      by (subst s; by rewrite (spread_lookup_new _ _ _ _ H2)).
    assert (F3 : truthy (s !! "enableGoogleFavicon"%string) = false)
      by (subst s; by rewrite (spread_lookup_new _ _ _ _ H3)).
    unfold getBusinessAvatar.
    rewrite (stage_disabled _ _ _ _ _ _ _ F1), bind_ret_l.
    rewrite (stage_disabled _ _ _ _ _ _ _ F2), bind_ret_l.
    by rewrite (stage_disabled _ _ _ _ _ _ _ F3), bind_ret_l. }
  split; [exact Heq |].
  intros d Hd. rewrite Heq, Hd.
  destruct (createBusinessInitials_present s email d (extractDomain_truthy _ _ Hd))
    as (a & Ha & Ht & _).
  exists a. by rewrite Ha.
Qed.

Lemma disabled_stages_go_to_initials_witness :
  getBusinessAvatar always_image
    (settings (updateSettings
       (<["enableFavicon" := SBool false]>
        (<["enableLogoAPI" := SBool false]>
        (<["enableGoogleFavicon" := SBool false]> ∅))) new_manager).2)
    "jan-kowalski@gmail.com"
  = ([], createBusinessInitials
           (settings (updateSettings
              (<["enableFavicon" := SBool false]>
               (<["enableLogoAPI" := SBool false]>
               (<["enableGoogleFavicon" := SBool false]> ∅))) new_manager).2)
           "jan-kowalski@gmail.com" (extractDomain "jan-kowalski@gmail.com")).
Proof.
  apply (disabled_stages_go_to_initials new_manager
           (<["enableFavicon" := SBool false]>
            (<["enableLogoAPI" := SBool false]>
            (<["enableGoogleFavicon" := SBool false]> ∅)))
           always_image "jan-kowalski@gmail.com");
    [unfold JsString.ascii_only; cbn; repeat constructor | reflexivity ..].
Defined.

(** ** The cache as a map in insertion order *)

Section JsMapFacts.
Context {V : Type}.
Implicit Types (m : JsMap.t V) (k : string) (v : V).

Lemma get_set_eq m k v : JsMap.get k (JsMap.set k v m) = Some v.
Proof.
  induction m as [| [k' v'] r IH]; cbn.
  - by rewrite decide_True.
  - destruct (decide (k' = k)) as [-> | Hne]; cbn.
    + by rewrite decide_True.
    + by rewrite decide_False.
Qed.

Lemma get_set_ne m k k' v : k ≠ k' → JsMap.get k' (JsMap.set k v m) = JsMap.get k' m.
Proof.
  intros Hne. induction m as [| [k0 v0] r IH]; cbn.
  - by rewrite decide_False.
  - destruct (decide (k0 = k)) as [-> | Hk]; cbn.
    + by rewrite !decide_False.
    + destruct (decide (k0 = k')); [done | exact IH].
Qed.

Lemma get_None_keys m k : JsMap.get k m = None ↔ k ∉ JsMap.keys m.
Proof.
  unfold JsMap.keys. induction m as [| [k' v'] r IH]; cbn.
  - split; [intros _; apply not_elem_of_nil | done].
  - rewrite not_elem_of_cons. destruct (decide (k' = k)) as [-> | Hne].
    + split; [done | by intros [? _]].
    + rewrite IH. split; [by intros | by intros [_ ?]].
Qed.

Lemma keys_set_present m k v :
  is_Some (JsMap.get k m) → JsMap.keys (JsMap.set k v m) = JsMap.keys m.
Proof.
  unfold JsMap.keys. induction m as [| [k' v'] r IH]; cbn.
  - by intros [? ?].
  - destruct (decide (k' = k)) as [-> | Hne]; cbn; [done |].
    intros H. by rewrite IH.
Qed.

Lemma keys_set_absent m k v :
  JsMap.get k m = None → JsMap.keys (JsMap.set k v m) = JsMap.keys m ++ [k].
Proof.
  unfold JsMap.keys. induction m as [| [k' v'] r IH]; cbn; [done |].
  destruct (decide (k' = k)) as [-> | Hne]; cbn; [done |].
  intros H. by rewrite IH.
Qed.

Lemma size_set m k v : (JsMap.size (JsMap.set k v m) ≤ S (JsMap.size m))%nat.
Proof.
  unfold JsMap.size. induction m as [| [k' v'] r IH]; cbn; [lia |].
  destruct (decide (k' = k)); cbn; lia.
Qed.

Lemma delete_first_key m : JsMap.delete_opt (JsMap.first_key m) m = tail m.
Proof.
  destruct m as [| [k v] r]; [done |]. cbn. by rewrite decide_True.
Qed.

Lemma set_NoDup m k v : NoDup (JsMap.keys m) → NoDup (JsMap.keys (JsMap.set k v m)).
Proof.
  intros Hnd. destruct (JsMap.get k m) as [v0 |] eqn:E.
  - by rewrite keys_set_present.
  - rewrite keys_set_absent by done. apply NoDup_app. split; [done |].
    split; [| apply NoDup_singleton].
    intros x Hx ->%list_elem_of_singleton. by apply get_None_keys in E.
Qed.

Lemma tail_NoDup m : NoDup (JsMap.keys m) → NoDup (JsMap.keys (tail m)).
Proof.
  destruct m as [| [k v] r]; [done |]. unfold JsMap.keys. cbn.
  by intros [_ ?]%NoDup_cons.
Qed.

End JsMapFacts.

Lemma cache_cacheAvatar (now : Z) (email : string) (d : avatar) (m : manager) :
  cache (cacheAvatar now email d m)
  = JsMap.set email {| data := d; timestamp := now |}
      (if at_capacity m then tail (cache m) else cache m).
Proof.
  unfold cacheAvatar. cbn. destruct (at_capacity m); [| done].
  by rewrite delete_first_key.
Qed.

Lemma settings_cacheAvatar (now : Z) (email : string) (d : avatar) (m : manager) :
  settings (cacheAvatar now email d m) = settings m.
Proof. reflexivity. Qed.

(** An insertion keeps the keys of the cache distinct. *)
Lemma cacheAvatar_NoDup (now : Z) (email : string) (d : avatar) (m : manager) :
  NoDup (JsMap.keys (cache m)) → NoDup (JsMap.keys (cache (cacheAvatar now email d m))).
Proof.
  intros H. rewrite cache_cacheAvatar. apply set_NoDup.
  destruct (at_capacity m); [by apply tail_NoDup | done].
Qed.

(** With a positive bound, an insertion into a cache within the bound leaves
    it within the bound. *)
Lemma cacheAvatar_size_bound (now : Z) (email : string) (d : avatar) (m : manager)
    (bound : Z) :
  to_number (settings m !! "maxCacheSize"%string) = Some bound →
  1 ≤ bound →
  Z.of_nat (JsMap.size (cache m)) ≤ bound →
  Z.of_nat (JsMap.size (cache (cacheAvatar now email d m))) ≤ bound.
Proof.
  intros Hb Hpos Hsz. rewrite cache_cacheAvatar.
  unfold at_capacity. rewrite Hb. cbn [ge_number].
  destruct (Z.geb_spec (Z.of_nat (JsMap.size (cache m))) bound) as [Hge | Hlt].
  - pose proof (size_set (tail (cache m)) email {| data := d; timestamp := now |}).
    assert (JsMap.size (tail (cache m)) = pred (JsMap.size (cache m))) as Ht
      by (unfold JsMap.size; by destruct (cache m)).
    lia.
  - pose proof (size_set (cache m) email {| data := d; timestamp := now |}). lia.
Qed.

Lemma insert_all_size_bound (ins : list (Z * string * avatar)) (m : manager) (bound : Z) :
  to_number (settings m !! "maxCacheSize"%string) = Some bound →
  1 ≤ bound →
  Z.of_nat (JsMap.size (cache m)) ≤ bound →
  Z.of_nat (JsMap.size (cache (insert_all ins m))) ≤ bound.
Proof.
  revert m. induction ins as [| i ins IH]; intros m Hb Hpos Hsz; [done |].
  cbn. apply IH; [done | done |]. by apply cacheAvatar_size_bound.
Qed.

(** C5.  The entry evicted at capacity is the first inserted one, read or
    not.  With room for two entries, [a@x.com] and [b@x.com] are inserted in
    this order, [a@x.com] is then read from the cache, and the insertion of
    [c@x.com] evicts [a@x.com]: the entry that was never read, [b@x.com],
    stays, although it is the oldest entry without an access. *)
Theorem eviction_ignores_reads :
  (JsMap.keys ∘ cache) <$> run fill_small_cache small_manager
    = Some ["a@x.com"; "b@x.com"]%string
  ∧ (fun m => (getAvatar_sync 5 (VString "a@x.com") m).1)
      <$> run fill_small_cache small_manager
    = Some (Returned (Some (sample_avatar "a@x.com")))
  ∧ (JsMap.keys ∘ cache) <$> run (fill_small_cache ++ read_then_insert) small_manager
    = Some ["b@x.com"; "c@x.com"]%string.
Proof. vm_compute. done. Qed.

(** ** Refreshing an entry *)

(** C10, as stated, fails: in a full cache whose oldest key is [a@x.com],
    caching [a@x.com] again deletes that key and inserts it anew, which makes
    it the newest. *)
Lemma refresh_of_oldest_at_capacity_moves_it :
  JsMap.keys (cache full_manager) = ["a@x.com"; "b@x.com"]%string
  ∧ at_capacity full_manager = true
  ∧ JsMap.keys (cache (cacheAvatar 9 "a@x.com" (sample_avatar "a@x.com") full_manager))
    = ["b@x.com"; "a@x.com"]%string.
Proof. vm_compute. done. Qed.

(** C10, amended.  For an address present in the cache, [cacheAvatar]
    replaces the stored entry and no key changes its place relative to the
    others, provided the cache is below capacity or the address is not its
    oldest key; at capacity the oldest key is evicted first and the refreshed
    key keeps its place among the keys that remain. *)
Theorem cacheAvatar_refresh_keeps_place (now : Z) (email : string) (d : avatar)
    (m : manager) :
  is_Some (JsMap.get email (cache m)) →
  at_capacity m = false ∨ JsMap.first_key (cache m) ≠ Some email →
  JsMap.keys (cache (cacheAvatar now email d m))
  = (if at_capacity m then tail (JsMap.keys (cache m)) else JsMap.keys (cache m))
  ∧ JsMap.get email (cache (cacheAvatar now email d m))
    = Some {| data := d; timestamp := now |}.
Proof.
  intros Hin Hcase. rewrite cache_cacheAvatar. split; [| apply get_set_eq].
  destruct (at_capacity m) eqn:Hcap.
  - destruct Hcase as [? | Hfirst]; [done |].
    destruct (cache m) as [| [k v] r] eqn:Hc; [by destruct Hin |].
    cbn in Hfirst, Hin |- *.
    destruct (decide (k = email)) as [-> | Hne]; [done |].
    by apply keys_set_present.
  - by apply keys_set_present.
Qed.

Lemma cacheAvatar_refresh_keeps_place_witness :
  JsMap.keys (cache (cacheAvatar 9 "b@x.com" (sample_avatar "b@x.com") full_manager))
  = (if at_capacity full_manager then tail (JsMap.keys (cache full_manager))
     else JsMap.keys (cache full_manager))
  ∧ JsMap.get "b@x.com" (cache (cacheAvatar 9 "b@x.com" (sample_avatar "b@x.com") full_manager))
    = Some {| data := sample_avatar "b@x.com"; timestamp := 9 |}.
Proof.
  apply (cacheAvatar_refresh_keeps_place 9 "b@x.com" (sample_avatar "b@x.com") full_manager).
  - vm_compute. eauto.
  - right. vm_compute. discriminate.
Defined.

(** ** Time to live *)

(** C6.  While an entry stamped [t0] is in the cache and the expiry is [T],
    a [getAvatar] for its address at [t0 + T - 1] returns the stored
    descriptor and changes nothing, so no resolution is started; at
    [t0 + T + 1] the entry is not used: the call ends up waiting for a
    resolution of the address, a new one unless one is pending already. *)
Theorem ttl_hit_then_miss (m : manager) (s : string) (d : avatar) (t0 T : Z) :
  s ≠ EmptyString →
  JsMap.get (normalize s) (cache m) = Some {| data := d; timestamp := t0 |} →
  to_number (settings m !! "cacheExpiry"%string) = Some T →
  getAvatar_sync (t0 + T - 1) (VString s) m = (Returned (Some d), m)
  ∧ (∃ p, ((getAvatar_sync (t0 + T + 1) (VString s) m).1 = Awaiting p
           ∨ (getAvatar_sync (t0 + T + 1) (VString s) m).1 = Joined p)
          ∧ pendingRequests (getAvatar_sync (t0 + T + 1) (VString s) m).2 !! normalize s
            = Some p)
  ∧ (pendingRequests m !! normalize s = None →
     (getAvatar_sync (t0 + T + 1) (VString s) m).1 = Awaiting (length (promises m))
     ∧ promises (getAvatar_sync (t0 + T + 1) (VString s) m).2
       = promises m ++ [normalize s]).
Proof.
  intros Hs Hget HT.
  assert (Hhit : fresh (t0 + T - 1) m (JsMap.get (normalize s) (cache m)) = true).
  { rewrite Hget. unfold fresh. rewrite HT. cbn. apply Z.ltb_lt. lia. }
  assert (Hmiss : fresh (t0 + T + 1) m (JsMap.get (normalize s) (cache m)) = false).
  { rewrite Hget. unfold fresh. rewrite HT. cbn. apply Z.ltb_ge. lia. }
  split; [| split].
  - unfold getAvatar_sync. rewrite (to_boolean_string _ Hs). cbn [negb].
    by rewrite Hhit, Hget.
  - destruct (pendingRequests m !! normalize s) as [p |] eqn:Hp.
    + exists p. rewrite (getAvatar_sync_join _ _ _ _ Hs Hmiss Hp). cbn. auto.
    + exists (length (promises m)). rewrite (getAvatar_sync_miss _ _ _ Hs Hmiss Hp).
      cbn. split; [auto | apply lookup_insert_eq].
  - intros Hp. by rewrite (getAvatar_sync_miss _ _ _ Hs Hmiss Hp).
Qed.

Lemma ttl_hit_then_miss_witness :
  getAvatar_sync (1 + 86400000 - 1) (VString "A@x.com") full_manager
  = (Returned (Some (sample_avatar "a@x.com")), full_manager)
  ∧ (getAvatar_sync (1 + 86400000 + 1) (VString "A@x.com") full_manager).1
    = Awaiting (length (promises full_manager)).
Proof.
  destruct (ttl_hit_then_miss full_manager "A@x.com" (sample_avatar "a@x.com")
              1 86400000) as (Hhit & _ & Hmiss);
    [discriminate | reflexivity | reflexivity |].
  split; [exact Hhit |]. apply Hmiss. reflexivity.
Defined.

(** ** Settings and the cache *)

(** C8.  [updateSettings] changes the settings and what is stored of them,
    and nothing else: the cache keeps its keys, descriptors and time stamps
    in their order, and the pending requests stay as they are. *)
Theorem updateSettings_keeps_cache (newSettings : settings_obj) (m : manager) :
  cache (updateSettings newSettings m).2 = cache m
  ∧ pendingRequests (updateSettings newSettings m).2 = pendingRequests m
  ∧ promises (updateSettings newSettings m).2 = promises m
  ∧ settings (updateSettings newSettings m).2 = spread (settings m) newSettings.
Proof. done. Qed.

(** An update that leaves [cacheExpiry] alone leaves every answer of the
    synchronous part of [getAvatar] as it was. *)
Lemma updateSettings_same_expiry (newSettings : settings_obj) (m : manager)
    (now : Z) (email : jsval) :
  newSettings !! "cacheExpiry"%string = None →
  (getAvatar_sync now email (updateSettings newSettings m).2).1
  = (getAvatar_sync now email m).1.
Proof.
  intros Hn. unfold getAvatar_sync.
  destruct (to_boolean email); [| done]. cbn [negb].
  destruct email; try done.
  cbn [updateSettings snd cache pendingRequests promises].
  assert (Hf : ∀ c, fresh now (updateSettings newSettings m).2 c = fresh now m c).
  { intros c. unfold fresh. cbn [updateSettings snd settings].
    by rewrite (spread_lookup_old _ _ _ Hn). }
  cbn [updateSettings snd] in Hf. rewrite Hf.
  destruct (fresh now m _); [done |].
  by destruct (pendingRequests m !! normalize s).
Qed.

(** ** Falsy input *)

(** C9.  On a falsy argument [getAvatar] returns [null] at once: the manager
    is left as it was, with the same cache, the same pending requests and no
    new promise. *)
Theorem getAvatar_falsy (now : Z) (email : jsval) (m : manager) :
  to_boolean email = false →
  getAvatar_sync now email m = (Returned None, m).
Proof. intros H. unfold getAvatar_sync. by rewrite H. Qed.

Lemma getAvatar_falsy_witness :
  getAvatar_sync 7 VNull full_manager = (Returned None, full_manager)
  ∧ getAvatar_sync 7 VUndefined full_manager = (Returned None, full_manager)
  ∧ getAvatar_sync 7 (VString EmptyString) full_manager = (Returned None, full_manager).
Proof.
  split; [| split].
  - apply (getAvatar_falsy 7 VNull full_manager). reflexivity.
  - apply (getAvatar_falsy 7 VUndefined full_manager). reflexivity.
  - apply (getAvatar_falsy 7 (VString EmptyString) full_manager). reflexivity.
Defined.

(** ** Pending requests *)




Lemma pendingRequests_resume (now : Z) (n : string) (r : result avatar) (m : manager) :
  pendingRequests (getAvatar_resume now n r m).2 = delete n (pendingRequests m)
  ∧ promises (getAvatar_resume now n r m).2 = promises m
  ∧ settled (getAvatar_resume now n r m).2 = settled m
  ∧ (getAvatar_resume now n r m).1 = r.
Proof. by destruct r. Qed.














(** ** Generated initials *)

Section InitialsFacts.
Import JsString.

Lemma chars_map_chars f s : chars (map_chars f s) = map f (chars s).
Proof. induction s as [| c r IH]; cbn; [done | by rewrite IH]. Qed.

Lemma length_chars s : String.length s = length (chars s).
Proof. induction s as [| c r IH]; cbn; [done | by rewrite IH]. Qed.

Lemma chars_append s t : chars (s +:+ t) = chars s ++ chars t.
Proof.
  induction s as [| c r IH]; [done |].
  change (chars (String c r +:+ t)) with (c :: chars (r +:+ t)).
  by rewrite IH.
Qed.

Lemma chars_charAt0 s : chars (charAt 0 s) = take 1 (chars s).
Proof. by destruct s. Qed.

Lemma chars_substring02 s : chars (substring 0 2 s) = take 2 (chars s).
Proof. destruct s as [| a [| b r]]; try done. cbn. by destruct r. Qed.

Lemma split_chars sep s : Forall (fun part => chars part ⊆ chars s) (split sep s).
Proof.
  induction s as [| c r IH]; cbn [split].
  - constructor; [done | constructor].
  - assert (Hw : ∀ part, chars part ⊆ chars r → chars part ⊆ chars (String c r)).
    { intros part H x Hx. cbn. right. by apply H. }
    destruct (Ascii.eqb c sep).
    + constructor; [cbn; apply list_subseteq_nil |].
      eapply Forall_impl; [exact IH | exact Hw].
    + destruct (split sep r) as [| seg rest].
      * constructor; [| constructor]. cbn. intros x Hx.
        apply elem_of_cons in Hx as [-> | Hx]; [by left | by apply elem_of_nil in Hx].
      * apply Forall_cons in IH as [Hseg Hrest]. constructor.
        -- cbn. intros x Hx. apply elem_of_cons in Hx as [-> | Hx]; [by left |].
           right. by apply Hseg.
        -- eapply Forall_impl; [exact Hrest | exact Hw].
Qed.

Lemma localPart_chars email : chars (localPart email) ⊆ chars email.
Proof.
  unfold localPart. pose proof (split_chars at_sign email) as H.
  destruct (split at_sign email) as [| p rest]; [apply list_subseteq_nil |].
  by apply Forall_cons in H as [? _].
Qed.

Lemma chars_first_letters parts :
  ∃ l, chars (first_letters parts) = map toUpperCase_char l
       ∧ (length l ≤ 2)%nat
       ∧ ∀ c, c ∈ l → ∃ part, part ∈ parts ∧ c ∈ chars part.
Proof.
  unfold first_letters, toUpperCase.
  destruct parts as [| a [| b rest]]; cbn [take map join foldr].
  - exists []. split; [done |]. split; [cbn; lia |]. by intros c ?%elem_of_nil.
  - exists (take 1 (chars a)).
    rewrite chars_append, chars_map_chars, chars_charAt0, app_nil_r.
    split; [done |]. split; [rewrite length_take; lia |].
    intros c Hc. exists a. split; [by left |].
    by eapply subseteq_take.
  - exists (take 1 (chars a) ++ take 1 (chars b)).
    rewrite !chars_append, !chars_map_chars, !chars_charAt0, app_nil_r, map_app.
    split; [done |]. split; [rewrite length_app, !length_take; lia |].
    intros c [Hc | Hc]%elem_of_app.
    + exists a. split; [by left |]. by eapply subseteq_take.
    + exists b. split; [right; by left |]. by eapply subseteq_take.
Qed.

(** The initials are the upper-case forms of at most two characters of the
    local part. *)
Lemma chars_generateBusinessInitials email :
  ∃ l, chars (generateBusinessInitials email) = map toUpperCase_char l
       ∧ (length l ≤ 2)%nat
       ∧ l ⊆ chars (localPart email).
Proof.
  unfold generateBusinessInitials. cbv zeta.
  set (lp := localPart email).
  assert (Hparts : ∀ sep, ∃ l,
             chars (first_letters (split sep lp)) = map toUpperCase_char l
             ∧ (length l ≤ 2)%nat ∧ l ⊆ chars lp).
  { intros sep. destruct (chars_first_letters (split sep lp)) as (l & Hl & Hlen & Hin).
    exists l. split; [done |]. split; [done |].
    intros c Hc. destruct (Hin c Hc) as (part & Hpart & Hcp).
    pose proof (split_chars sep lp) as Hall.
    rewrite Forall_forall in Hall. by apply (Hall part Hpart). }
  destruct (includes dot lp); [apply Hparts |].
  destruct (includes hyphen lp); [apply Hparts |].
  destruct (2 <=? String.length lp)%nat.
  - exists (take 2 (chars lp)). unfold toUpperCase.
    rewrite chars_map_chars, chars_substring02.
    split; [done |]. split; [rewrite length_take; lia | apply subseteq_take].
  - exists (take 1 (chars lp) ++ take 1 (chars lp)). unfold toUpperCase.
    cbn [repeat]. rewrite !chars_append, !chars_map_chars, !chars_charAt0.
    cbn [chars]. rewrite app_nil_r, map_app.
    split; [done |]. split; [rewrite length_app, !length_take; lia |].
    intros c [Hc | Hc]%elem_of_app; by eapply subseteq_take.
Qed.

Lemma toUpperCase_char_not_lower c : is_lower (toUpperCase_char c) = false.
Proof. destruct c as [[] [] [] [] [] [] [] []]; reflexivity. Qed.

Lemma toUpperCase_char_ascii c :
  (code c < 128)%N → (code (toUpperCase_char c) < 128)%N.
Proof. destruct c as [[] [] [] [] [] [] [] []]; vm_compute; congruence. Qed.

Lemma toUpperCase_char_letter c :
  is_letter c = true → is_upper (toUpperCase_char c) = true.
Proof. destruct c as [[] [] [] [] [] [] [] []]; vm_compute; congruence. Qed.

Lemma includes_no_letter d s :
  is_letter d = false → Forall (fun c => is_letter c = true) (chars s) →
  includes d s = false.
Proof.
  intros Hd. induction s as [| c r IH]; cbn; [done |].
  intros [Hc Hr]%Forall_cons. rewrite (IH Hr), orb_false_r.
  apply Ascii.eqb_neq. intros ->. congruence.
Qed.

(** A local part made of letters gives two upper-case letters. *)
Lemma letters_give_two_upper email :
  localPart email ≠ EmptyString →
  Forall (fun c => is_letter c = true) (chars (localPart email)) →
  String.length (generateBusinessInitials email) = 2%nat
  ∧ Forall (fun c => is_upper c = true) (chars (generateBusinessInitials email)).
Proof.
  intros Hne Hall. unfold generateBusinessInitials. cbv zeta.
  rewrite (includes_no_letter dot _ eq_refl Hall).
  rewrite (includes_no_letter hyphen _ eq_refl Hall).
  destruct (localPart email) as [| a [| b r]]; [done | |].
  - apply Forall_cons in Hall as [Ha _]. cbn. split; [done |].
    repeat constructor; by apply toUpperCase_char_letter.
  - apply Forall_cons in Hall as [Ha [Hb _]%Forall_cons].
    cbn [String.length Nat.leb]. unfold toUpperCase.
    rewrite length_chars, chars_map_chars, chars_substring02. cbn.
    split; [done |]. repeat constructor; by apply toUpperCase_char_letter.
Qed.

End InitialsFacts.

(** C7, as stated, fails: the initials of [..@x.com] are the empty string,
    and those of [4.2@x.com] are two digits. *)
Lemma initials_empty_or_digits :
  generateBusinessInitials "..@x.com" = EmptyString
  ∧ generateBusinessInitials "4.2@x.com" = "42"%string
  ∧ extractDomain "..@x.com" = Some "x.com"%string.
Proof. vm_compute. done. Qed.

(** * Further properties of the code *)

(** ** The shape of a derived domain *)

Section DomainFacts.
Import JsString.

Lemma append_cons c s t : String c s +:+ t = String c (s +:+ t).
Proof. reflexivity. Qed.

Lemma includes_append c s t : includes c (s +:+ t) = includes c s || includes c t.
Proof.
  induction s as [| d r IH]; [done |].
  rewrite append_cons. cbn [includes]. by rewrite IH, orb_assoc.
Qed.

Lemma match_label_end_spec s :
  match_label_end s = true ↔ s ≠ EmptyString ∧ includes at_sign s = false.
Proof.
  induction s as [| c r IH]; [by split; [| intros [? _]] |].
  destruct r as [| c' r'].
  - cbn. rewrite orb_false_r, negb_true_iff. by split; [| intros [_ ?]].
  - change (match_label_end (String c (String c' r')))
      with (negb (Ascii.eqb c at_sign) && match_label_end (String c' r')).
    change (includes at_sign (String c (String c' r')))
      with (Ascii.eqb c at_sign || includes at_sign (String c' r')).
    rewrite andb_true_iff, negb_true_iff, IH, orb_false_iff.
    split; [intros (? & _ & ?) | intros (_ & ? & ?)]; done.
Qed.

Lemma match_domain_end_spec s :
  match_domain_end s = true ↔
  ∃ a b, s = a +:+ String dot b ∧ a ≠ EmptyString ∧ b ≠ EmptyString
         ∧ includes at_sign a = false ∧ includes at_sign b = false.
Proof.
  split.
  - induction s as [| c r IH]; [done |]. cbn [match_domain_end].
    intros [Hc [Hr | Hr]%orb_true_iff]%andb_true_iff.
    + destruct r as [| d r']; [done |].
      apply andb_true_iff in Hr as [->%Ascii.eqb_eq [Hne Hb]%match_label_end_spec].
      exists (String c EmptyString), r'. cbn [includes].
      apply negb_true_iff in Hc. by rewrite Hc.
    + destruct (IH Hr) as (a & b & -> & Ha & Hb & Hna & Hnb).
      exists (String c a), b. cbn [includes].
      apply negb_true_iff in Hc. by rewrite Hc, Hna.
  - intros (a & b & -> & Ha & Hb & Hna & Hnb). revert Ha Hna.
    induction a as [| c a IH]; [done |]. intros _ Hna.
    cbn [includes] in Hna. apply orb_false_iff in Hna as [Hc Hna].
    rewrite append_cons. cbn [match_domain_end]. rewrite Hc. cbn [negb andb].
    destruct a as [| c' a'].
    + change (EmptyString +:+ String dot b) with (String dot b).
      cbv iota. rewrite Ascii.eqb_refl. cbn [andb].
      assert (match_label_end b = true) as -> by (by apply match_label_end_spec).
      done.
    + rewrite IH by done. apply orb_true_r.
Qed.

Lemma match_domain_end_no_at s :
  match_domain_end s = true → includes at_sign s = false.
Proof.
  intros (a & b & -> & _ & _ & Hna & Hnb)%match_domain_end_spec.
  rewrite includes_append. cbn [includes]. by rewrite Hna, Hnb.
Qed.

Lemma match_domain_spec email d :
  match_domain email = Some d ↔
  ∃ pre, email = pre +:+ String at_sign d ∧ match_domain_end d = true.
Proof.
  split.
  - induction email as [| c r IH]; [done |]. cbn [match_domain].
    destruct (Ascii.eqb c at_sign && match_domain_end r) eqn:E.
    + intros [= <-]. apply andb_true_iff in E as [->%Ascii.eqb_eq Hr].
      by exists EmptyString.
    + intros (pre & -> & Hd)%IH. by exists (String c pre).
  - intros (pre & -> & Hd). induction pre as [| c pre IH].
    + change (EmptyString +:+ String at_sign d) with (String at_sign d).
      cbn [match_domain]. by rewrite Ascii.eqb_refl, Hd.
    + rewrite append_cons. cbn [match_domain].
      assert (match_domain_end (pre +:+ String at_sign d) = false) as ->.
      { apply not_true_is_false. intros H%match_domain_end_no_at.
        rewrite includes_append in H. cbn [includes] in H.
        rewrite Ascii.eqb_refl in H. cbn in H. by rewrite orb_true_r in H. }
      by rewrite andb_false_r.
Qed.

End DomainFacts.

(** X1.  For an ASCII address, [extractDomain] yields a domain exactly when
    the address ends in an [@], a non-empty label, a dot and a non-empty
    label, with no [@] in either label; the domain is that ending in lower
    case.  What stands before the [@] is not looked at, further [@] signs
    included. *)
Theorem extractDomain_shape (email d : string) :
  JsString.ascii_only email →
  (extractDomain email = Some d ↔
   ∃ pre a b,
     email = pre +:+ String at_sign (a +:+ String dot b)
     ∧ a ≠ EmptyString ∧ b ≠ EmptyString
     ∧ JsString.includes at_sign a = false ∧ JsString.includes at_sign b = false
     ∧ d = JsString.toLowerCase (a +:+ String dot b)).
Proof.
  intros _. unfold extractDomain. split.
  - destruct email as [| c r]; [done |].
    destruct (match_domain (String c r)) as [d' |] eqn:E; [| done].
    cbn. intros [= <-].
    apply match_domain_spec in E as (pre & Heq & Hend).
    apply match_domain_end_spec in Hend as (a & b & -> & Ha & Hb & Hna & Hnb).
    by exists pre, a, b.
  - intros (pre & a & b & -> & Ha & Hb & Hna & Hnb & ->).
    assert (match_domain (pre +:+ String at_sign (a +:+ String dot b))
            = Some (a +:+ String dot b)) as Hm.
    { apply match_domain_spec. exists pre. split; [done |].
      apply match_domain_end_spec. by exists a, b. }
    destruct (pre +:+ String at_sign (a +:+ String dot b)) eqn:E; [by destruct pre |].
    by rewrite Hm.
Qed.

Lemma extractDomain_shape_witness :
  extractDomain "a@b@Example.ORG" = Some "example.org"%string.
Proof.
  apply (extractDomain_shape "a@b@Example.ORG" "example.org").
  - unfold JsString.ascii_only. cbn. repeat constructor.
  - exists "a@b"%string, "Example"%string, "ORG"%string. by vm_compute.
Defined.

(** ** Case and white space *)

Section NormalizeFacts.
Import JsString.

Lemma toLowerCase_char_idem c : toLowerCase_char (toLowerCase_char c) = toLowerCase_char c.
Proof. destruct c as [[] [] [] [] [] [] [] []]; reflexivity. Qed.

Lemma toLowerCase_char_at c : Ascii.eqb (toLowerCase_char c) at_sign = Ascii.eqb c at_sign.
Proof. destruct c as [[] [] [] [] [] [] [] []]; reflexivity. Qed.

Lemma toLowerCase_char_dot c : Ascii.eqb (toLowerCase_char c) dot = Ascii.eqb c dot.
Proof. destruct c as [[] [] [] [] [] [] [] []]; reflexivity. Qed.

Lemma toLowerCase_char_space c : is_space (toLowerCase_char c) = is_space c.
Proof. destruct c as [[] [] [] [] [] [] [] []]; reflexivity. Qed.

Lemma toLowerCase_idem s : toLowerCase (toLowerCase s) = toLowerCase s.
Proof.
  unfold toLowerCase. induction s as [| c r IH]; [done |].
  cbn [map_chars]. by rewrite toLowerCase_char_idem, IH.
Qed.

Lemma match_label_end_lower s : match_label_end (toLowerCase s) = match_label_end s.
Proof.
  unfold toLowerCase. induction s as [| c r IH]; [done |].
  destruct r as [| c' r'].
  - cbn. by rewrite toLowerCase_char_at.
  - change (match_label_end (map_chars toLowerCase_char (String c (String c' r'))))
      with (negb (Ascii.eqb (toLowerCase_char c) at_sign)
            && match_label_end (map_chars toLowerCase_char (String c' r'))).
    change (match_label_end (String c (String c' r')))
      with (negb (Ascii.eqb c at_sign) && match_label_end (String c' r')).
    by rewrite toLowerCase_char_at, IH.
Qed.

Lemma match_domain_end_lower s : match_domain_end (toLowerCase s) = match_domain_end s.
Proof.
  unfold toLowerCase. induction s as [| c r IH]; [done |].
  cbn [map_chars match_domain_end]. rewrite toLowerCase_char_at, IH. f_equal. f_equal.
  destruct r as [| d r']; [done |]. cbn [map_chars].
  rewrite toLowerCase_char_dot. f_equal. apply match_label_end_lower.
Qed.

Lemma match_domain_lower s :
  match_domain (toLowerCase s) = toLowerCase <$> match_domain s.
Proof.
  induction s as [| c r IH]; [done |].
  change (toLowerCase (String c r)) with (String (toLowerCase_char c) (toLowerCase r)).
  cbn [match_domain]. rewrite toLowerCase_char_at, match_domain_end_lower, IH.
  by destruct (Ascii.eqb c at_sign && match_domain_end r).
Qed.

Lemma trimStart_lower s : trimStart (toLowerCase s) = toLowerCase (trimStart s).
Proof.
  unfold toLowerCase. induction s as [| c r IH]; [done |].
  cbn [map_chars trimStart]. rewrite toLowerCase_char_space.
  by destruct (is_space c).
Qed.

Lemma trimEnd_lower s : trimEnd (toLowerCase s) = toLowerCase (trimEnd s).
Proof.
  unfold toLowerCase. induction s as [| c r IH]; [done |].
  cbn [map_chars trimEnd]. rewrite IH, toLowerCase_char_space.
  destruct (trimEnd r); cbn [map_chars]; [by destruct (is_space c) | done].
Qed.

Lemma trimStart_idem s : trimStart (trimStart s) = trimStart s.
Proof.
  induction s as [| c r IH]; [done |]. cbn [trimStart].
  destruct (is_space c) eqn:E; [done |]. cbn [trimStart]. by rewrite E.
Qed.

Lemma trimEnd_idem s : trimEnd (trimEnd s) = trimEnd s.
Proof.
  induction s as [| c r IH]; [done |]. cbn [trimEnd].
  destruct (trimEnd r) as [| c' r'] eqn:E.
  - destruct (is_space c) eqn:Ec; [done |]. cbn [trimEnd]. by rewrite Ec.
  - cbn [trimEnd]. cbn [trimEnd] in IH. by rewrite IH.
Qed.

Lemma trimStart_trimEnd s : trimStart (trimEnd s) = trimEnd (trimStart s).
Proof.
  induction s as [| c r IH]; [done |]. cbn [trimStart trimEnd].
  destruct (is_space c) eqn:Ec.
  - rewrite <- IH. destruct (trimEnd r) as [| c' r']; [done |].
    cbn [trimStart]. by rewrite Ec.
  - cbn [trimEnd]. destruct (trimEnd r) as [| c' r']; cbn [trimStart]; by rewrite Ec.
Qed.

Lemma trim_idem s : trim (trim s) = trim s.
Proof.
  unfold trim. by rewrite trimStart_trimEnd, trimStart_idem, trimEnd_idem.
Qed.

Lemma trim_lower s : trim (toLowerCase s) = toLowerCase (trim s).
Proof. unfold trim. by rewrite trimStart_lower, trimEnd_lower. Qed.

End NormalizeFacts.

(** X2.  The derived domain of an ASCII address does not depend on its
    case: lower-casing the address first, as [getAvatar] does, gives the same
    domain. *)
Theorem extractDomain_case_insensitive (email : string) :
  JsString.ascii_only email →
  extractDomain (JsString.toLowerCase email) = extractDomain email.
Proof.
  intros _. unfold extractDomain. destruct email as [| c r]; [done |].
  change (JsString.toLowerCase (String c r))
    with (String (JsString.toLowerCase_char c) (JsString.toLowerCase r)).
  change (String (JsString.toLowerCase_char c) (JsString.toLowerCase r))
    with (JsString.toLowerCase (String c r)).
  rewrite match_domain_lower.
  destruct (match_domain (String c r)) as [d |]; [| done].
  cbn. by rewrite toLowerCase_idem.
Qed.

Lemma extractDomain_case_insensitive_witness :
  extractDomain (JsString.toLowerCase "John.Doe@Example.ORG")
  = extractDomain "John.Doe@Example.ORG".
Proof.
  apply (extractDomain_case_insensitive "John.Doe@Example.ORG").
  unfold JsString.ascii_only. cbn. repeat constructor.
Defined.

Lemma normalize_idempotent (email : string) :
  normalize (normalize email) = normalize email.
Proof.
  unfold normalize. by rewrite <- trim_lower, trim_idem, toLowerCase_idem.
Qed.

(** X3.  The cache key is canonical: a call of [getAvatar] with the trimmed,
    lower-cased form of an ASCII address does exactly what the call with the
    address itself does, provided that form is not empty. *)
Theorem getAvatar_canonical_form (now : Z) (s : string) (m : manager) :
  JsString.ascii_only s →
  normalize s ≠ EmptyString →
  getAvatar_sync now (VString (normalize s)) m = getAvatar_sync now (VString s) m.
Proof.
  intros _ Hn. assert (s ≠ EmptyString) as Hs by (by intros ->).
  unfold getAvatar_sync.
  rewrite (to_boolean_string _ Hn), (to_boolean_string _ Hs).
  by rewrite normalize_idempotent.
Qed.

Lemma getAvatar_canonical_form_witness :
  getAvatar_sync 3 (VString (normalize "  John.Doe@Example.ORG ")) full_manager
  = getAvatar_sync 3 (VString "  John.Doe@Example.ORG ") full_manager.
Proof.
  apply (getAvatar_canonical_form 3 "  John.Doe@Example.ORG " full_manager).
  - unfold JsString.ascii_only. cbn. repeat constructor.
  - vm_compute. discriminate.
Defined.

(** ** The source chain on any network *)

Section ChainFacts.
Variable fetch : string -> option response.
Variable settings : settings_obj.

Lemma validateImageUrl_run u :
  validateImageUrl fetch u = ([u], Ok (validated fetch u)).
Proof.
  unfold validateImageUrl, validated, head_request, bind, try_catch, ret.
  by destruct (fetch u).
Qed.

(** What the chain needs of a stage's candidate: it requests HTTPS URLs only,
    at most [bound] of them, and proposes an HTTPS URL. *)
Lemma stage_spec enabled (candidate : net string) t d e (bound : nat) :
  Forall (fun u => is_https u = true) candidate.1 →
  (length candidate.1 ≤ bound)%nat →
  (∀ u, candidate.2 = Ok u → is_https u = true) →
  ∃ tr o,
    stage fetch settings enabled candidate t d e = (tr, Ok o)
    ∧ Forall (fun u => is_https u = true) tr
    ∧ (length tr ≤ S bound)%nat
    ∧ ∀ a, o = Some a →
        a = descriptor settings (url a) t d e
        ∧ truthy (settings !! enabled) = true
        ∧ validated fetch (url a) = true.
Proof.
  intros Hall Hlen Hu. unfold stage.
  destruct (truthy (settings !! enabled)) eqn:Hen.
  - destruct candidate as [tc [u | err]]; cbn [fst snd] in *.
    + unfold bind at 1. rewrite validateImageUrl_run. cbn [bind ret try_catch].
      rewrite app_nil_r. eexists _, _. split; [reflexivity |].
      split; [apply Forall_app; split; [done | by repeat constructor; apply Hu] |].
      split; [rewrite length_app; cbn; lia |].
      intros a Ha. destruct (validated fetch u) eqn:Hv; [| done].
      injection Ha as <-. done.
    + cbn [bind try_catch ret]. rewrite app_nil_r.
      eexists _, _. split; [reflexivity |]. split; [done |]. split; [lia | done].
  - exists [], None. split; [done |]. split; [constructor |]. split; [cbn; lia | done].
Qed.

Lemma first_valid_spec d urls :
  Forall (fun u => is_https u = true) urls →
  Forall (fun u => is_https u = true) (first_valid fetch d urls).1
  ∧ (length (first_valid fetch d urls).1 ≤ length urls)%nat
  ∧ ∀ u, (first_valid fetch d urls).2 = Ok u → is_https u = true.
Proof.
  induction urls as [| u rest IH]; intros Hall.
  - cbn. split; [constructor |]. split; [lia | done].
  - apply Forall_cons in Hall as [Hu Hrest]. destruct (IH Hrest) as (H1 & H2 & H3).
    cbn [first_valid]. rewrite validateImageUrl_run. cbn [bind].
    destruct (validated fetch u).
    + cbn. split; [by repeat constructor |]. split; [lia |]. by intros ? [= <-].
    + destruct (first_valid fetch d rest) as [tr r]. cbn [fst snd] in *.
      split; [by constructor |]. split; [cbn; lia | done].
Qed.

Lemma knownFavicons_https d u :
  getKnownBusinessFavicon d = Some u → is_https u = true.
Proof.
  unfold getKnownBusinessFavicon.
  destruct (list_find _ knownFavicons) as [[i kv] |] eqn:E; [| done].
  cbn. intros [= <-]. apply list_find_Some in E as (Hl & _ & _).
  assert (Forall (fun kv : string * string => is_https kv.2 = true) knownFavicons) as Hall
    by (repeat constructor).
  rewrite Forall_forall in Hall. apply Hall. by eapply list_elem_of_lookup_2.
Qed.

Lemma is_https_prefixed x :
  is_https (String "h" (String "t" (String "t" (String "p" (String "s"
              (String ":" (String "/" (String "/" x)))))))) = true.
Proof. by destruct x. Qed.

Lemma faviconUrls_https d : Forall (fun u => is_https u = true) (faviconUrls d).
Proof.
  unfold faviconUrls. repeat (constructor; [apply is_https_prefixed |]). constructor.
Qed.

Lemma getFaviconUrl_spec d :
  Forall (fun u => is_https u = true) (getFaviconUrl fetch d).1
  ∧ (length (getFaviconUrl fetch d).1 ≤ 6)%nat
  ∧ ∀ u, (getFaviconUrl fetch d).2 = Ok u → is_https u = true.
Proof.
  unfold getFaviconUrl. destruct (str_truthy d); cbn [negb].
  - destruct (getKnownBusinessFavicon (default EmptyString d)) as [known |] eqn:Hk.
    + cbn. split; [constructor |]. split; [lia |].
      intros u [= <-]. by eapply knownFavicons_https.
    + apply (first_valid_spec _ _ (faviconUrls_https _)).
  - cbn. split; [constructor |]. split; [lia | done].
Qed.

Lemma getCompanyLogo_spec d :
  Forall (fun u => is_https u = true) (getCompanyLogo fetch d).1
  ∧ (length (getCompanyLogo fetch d).1 ≤ 1)%nat
  ∧ ∀ u, (getCompanyLogo fetch d).2 = Ok u → is_https u = true.
Proof.
  unfold getCompanyLogo. destruct (str_truthy d); cbn [negb].
  - unfold head_request, bind. destruct (fetch _) as [r |].
    + destruct (is_image r); cbn.
      * split; [constructor; [apply is_https_prefixed | constructor] |].
        split; [lia |]. intros u [= <-]. apply is_https_prefixed.
      * split; [constructor; [apply is_https_prefixed | constructor] |].
        split; [lia | done].
    + cbn. split; [constructor; [apply is_https_prefixed | constructor] |].
      split; [lia | done].
  - cbn. split; [constructor |]. split; [lia | done].
Qed.

(** Every way a resolution can end, with what it requested on the way. *)
Lemma getBusinessAvatar_cases email :
  ∃ tr r,
    getBusinessAvatar fetch settings email = (tr, r)
    ∧ Forall (fun u => is_https u = true) tr
    ∧ (length tr ≤ 10)%nat
    ∧ (r = createBusinessInitials settings email (extractDomain email)
       ∨ ∃ a enabled,
           r = Ok a
           ∧ a = descriptor settings (url a) (type a) (extractDomain email) email
           ∧ (type a = favicon ∧ enabled = "enableFavicon"%string
              ∨ type a = company_logo ∧ enabled = "enableLogoAPI"%string
              ∨ type a = google_favicon ∧ enabled = "enableGoogleFavicon"%string)
           ∧ truthy (settings !! enabled) = true
           ∧ validated fetch (url a) = true).
Proof.
  unfold getBusinessAvatar. cbv zeta.
  set (d := extractDomain email).
  destruct (getFaviconUrl_spec d) as (A1 & A2 & A3).
  destruct (stage_spec "enableFavicon" _ favicon d email 6 A1 A2 A3)
    as (t1 & o1 & -> & T1 & L1 & R1).
  destruct (getCompanyLogo_spec d) as (B1 & B2 & B3).
  destruct (stage_spec "enableLogoAPI" _ company_logo d email 1 B1 B2 B3)
    as (t2 & o2 & E2 & T2 & L2 & R2).
  destruct (stage_spec "enableGoogleFavicon"
              (ret ("https://www.google.com/s2/favicons?domain=" +:+ domain_text d
                    +:+ "&sz=" +:+ to_string (settings !! "avatarSize"%string))%string)
              google_favicon d email 0)
    as (t3 & o3 & E3 & T3 & L3 & R3);
    [constructor | cbn; lia | intros u [= <-]; apply is_https_prefixed |].
  cbn [bind].
  destruct o1 as [a |].
  { cbn. rewrite app_nil_r. eexists _, _. split; [reflexivity |].
    split; [done |]. split; [lia |]. right.
    destruct (R1 a eq_refl) as (Ha & Hen & Hv).
    exists a, "enableFavicon"%string. split; [done |].
    split; [by rewrite Ha at 1; rewrite Ha |]. split; [left; by rewrite Ha |]. done. }
  rewrite E2. cbn [bind]. destruct o2 as [a |].
  { cbn. rewrite app_nil_r. eexists _, _. split; [reflexivity |].
    split; [by apply Forall_app |]. split; [rewrite length_app; lia |]. right.
    destruct (R2 a eq_refl) as (Ha & Hen & Hv).
    exists a, "enableLogoAPI"%string. split; [done |].
    split; [by rewrite Ha at 1; rewrite Ha |].
    split; [right; left; by rewrite Ha |]. done. }
  rewrite E3. cbn [bind]. destruct o3 as [a |].
  { cbn. rewrite app_nil_r. eexists _, _. split; [reflexivity |].
    split; [by rewrite !Forall_app |]. split; [rewrite !length_app; lia |]. right.
    destruct (R3 a eq_refl) as (Ha & Hen & Hv).
    exists a, "enableGoogleFavicon"%string. split; [done |].
    split; [by rewrite Ha at 1; rewrite Ha |].
    split; [right; right; by rewrite Ha |]. done. }
  rewrite app_nil_r. eexists _, _. split; [reflexivity |].
  split; [by rewrite !Forall_app |]. split; [rewrite !length_app; lia |]. by left.
Qed.

End ChainFacts.

Lemma createBusinessInitials_fields (settings : settings_obj) (address : string)
    (d : option string) (a : avatar) :
  createBusinessInitials settings address d = Ok a →
  type a = business_initials
  ∧ email a = address
  ∧ domain a = d
  ∧ size a = settings !! "avatarSize"%string
  ∧ initials a = Some (generateBusinessInitials address).
Proof.
  unfold createBusinessInitials.
  destruct (getBusinessColors d) as [[c |] | e]; [| done | done].
  by intros [= <-].
Qed.

(** X4.  For an ASCII address with a derived domain a resolution never
    fails, whatever the network answers and whatever the settings are: it
    yields a descriptor for that address and domain, with the configured
    size. *)
Theorem resolution_with_domain_yields_descriptor
    (fetch : string -> option response) (settings : settings_obj) (address d : string) :
  JsString.ascii_only address →
  extractDomain address = Some d →
  ∃ tr a,
    getBusinessAvatar fetch settings address = (tr, Ok a)
    ∧ email a = address
    ∧ domain a = Some d
    ∧ size a = settings !! "avatarSize"%string.
Proof.
  intros _ Hd.
  destruct (getBusinessAvatar_cases fetch settings address)
    as (tr & r & Hrun & _ & _ & [-> | (a & en & -> & Ha & _)]).
  - rewrite Hd in *.
    destruct (createBusinessInitials_present settings address d
                (extractDomain_truthy _ _ Hd)) as (a & Hc & _).
    exists tr, a. rewrite Hrun, Hc. split; [done |].
    by destruct (createBusinessInitials_fields _ _ _ _ Hc) as (_ & ? & ? & ? & _).
  - exists tr, a. split; [done |]. rewrite Ha, Hd. done.
Qed.

Lemma resolution_with_domain_yields_descriptor_witness :
  ∃ tr a,
    getBusinessAvatar offline default_settings "jan-kowalski@example.org" = (tr, Ok a)
    ∧ email a = "jan-kowalski@example.org"%string
    ∧ domain a = Some "example.org"%string
    ∧ size a = default_settings !! "avatarSize"%string.
Proof.
  apply (resolution_with_domain_yields_descriptor offline default_settings
           "jan-kowalski@example.org" "example.org").
  - unfold JsString.ascii_only. cbn. repeat constructor.
  - reflexivity.
Defined.

(** X5.  Every URL a resolution requests is an HTTPS URL, for every address,
    network and settings. *)
Theorem resolution_requests_https_only
    (fetch : string -> option response) (settings : settings_obj) (email : string) :
  Forall (fun u => is_https u = true) (getBusinessAvatar fetch settings email).1.
Proof.
  destruct (getBusinessAvatar_cases fetch settings email) as (tr & r & -> & H & _).
  exact H.
Qed.

(** X6.  A resolution makes at most ten requests: six probes and one check
    for the favicon, two for the logo, one for the favicon service. *)
Theorem resolution_requests_at_most_ten
    (fetch : string -> option response) (settings : settings_obj) (email : string) :
  (length (getBusinessAvatar fetch settings email).1 ≤ 10)%nat.
Proof.
  destruct (getBusinessAvatar_cases fetch settings email) as (tr & r & -> & _ & H & _).
  exact H.
Qed.

(** X7.  A descriptor that is not the generated initials comes from a stage
    that is switched on, and its URL answered the check: the request
    succeeded with an image content type. *)
Theorem network_avatar_was_validated
    (fetch : string -> option response) (settings : settings_obj) (email : string)
    (a : avatar) :
  (getBusinessAvatar fetch settings email).2 = Ok a →
  type a ≠ business_initials →
  (∃ r, fetch (url a) = Some r ∧ ok r = true
        ∧ ∃ ct, content_type r = Some ct ∧ JsString.startsWith "image/" ct = true)
  ∧ (type a = favicon → truthy (settings !! "enableFavicon"%string) = true)
  ∧ (type a = company_logo → truthy (settings !! "enableLogoAPI"%string) = true)
  ∧ (type a = google_favicon → truthy (settings !! "enableGoogleFavicon"%string) = true).
Proof.
  destruct (getBusinessAvatar_cases fetch settings email)
    as (tr & r & -> & _ & _ & [-> | (a' & en & -> & Ha & Hty & Hen & Hv)]);
    cbn [snd].
  - intros Hc Hn. by apply createBusinessInitials_fields in Hc as (? & _).
  - intros [= <-] Hn. split.
    + unfold validated in Hv. destruct (fetch (url a')) as [r |]; [| done].
      exists r. split; [done |]. unfold is_image in Hv.
      apply andb_true_iff in Hv as [Hok Hct]. split; [done |].
      destruct (content_type r) as [ct |]; [| done]. by exists ct.
    + destruct Hty as [[Ht ->] | [[Ht ->] | [Ht ->]]];
        rewrite Ht; repeat split; intros; congruence.
Qed.

Lemma network_avatar_was_validated_witness :
  ∃ r, always_image "https://ssl.gstatic.com/ui/v1/icons/mail/rfr/gmail.ico" = Some r
       ∧ ok r = true.
Proof.
  destruct (network_avatar_was_validated always_image default_settings "user@gmail.com"
              (descriptor default_settings
                 "https://ssl.gstatic.com/ui/v1/icons/mail/rfr/gmail.ico"
                 favicon (Some "gmail.com"%string) "user@gmail.com"))
    as ((r & Hr & Hok & _) & _).
  - reflexivity.
  - discriminate.
  - exists r. split; [exact Hr | exact Hok].
Defined.

(** X8.  When no URL passes the check (the network is down, or nothing
    answers with an image), an ASCII address with a derived domain still gets
    its avatar: the generated initials. *)
Theorem unanswered_resolution_gives_initials
    (fetch : string -> option response) (settings : settings_obj) (email d : string) :
  JsString.ascii_only email →
  (∀ u, validated fetch u = false) →
  extractDomain email = Some d →
  ∃ tr a,
    getBusinessAvatar fetch settings email = (tr, Ok a)
    ∧ type a = business_initials
    ∧ initials a = Some (generateBusinessInitials email).
Proof.
  intros _ Hdown Hd.
  destruct (getBusinessAvatar_cases fetch settings email)
    as (tr & r & Hrun & _ & _ & [-> | (a & en & -> & _ & _ & _ & Hv)]).
  - rewrite Hd in *.
    destruct (createBusinessInitials_present settings email d
                (extractDomain_truthy _ _ Hd)) as (a & Hc & Ht & Hi).
    exists tr, a. by rewrite Hrun, Hc.
  - by rewrite Hdown in Hv.
Qed.

Lemma unanswered_resolution_gives_initials_witness :
  ∃ tr a,
    getBusinessAvatar offline default_settings "john.doe@example.org" = (tr, Ok a)
    ∧ type a = business_initials
    ∧ initials a = Some (generateBusinessInitials "john.doe@example.org").
Proof.
  apply (unanswered_resolution_gives_initials offline default_settings
           "john.doe@example.org" "example.org").
  - unfold JsString.ascii_only. cbn. repeat constructor.
  - intros u. reflexivity.
  - reflexivity.
Defined.

(** ** The cache over time *)

Section FilterFacts.
Context {V : Type}.
Implicit Types (m : list (string * V)) (k : string) (v : V).

Lemma keys_filter_subset (P : string * V → bool) m k :
  k ∈ JsMap.keys (filter P m) → k ∈ JsMap.keys m.
Proof.
  unfold JsMap.keys. rewrite !list_elem_of_fmap.
  intros (kv & -> & Hin). exists kv. split; [done |].
  by apply list_elem_of_filter in Hin as [_ ?].
Qed.

Lemma get_filter_kept (P : string * V → bool) m k v :
  JsMap.get k m = Some v → P (k, v) = true → JsMap.get k (filter P m) = Some v.
Proof.
  intros Hget HP. induction m as [| [k' v'] r IH]; [done |].
  cbn in Hget. rewrite filter_cons.
  destruct (decide (k' = k)) as [-> | Hne].
  - injection Hget as ->. rewrite decide_True by (by rewrite HP).
    cbn. by rewrite decide_True.
  - destruct (decide (P (k', v'))); [cbn; rewrite decide_False by done |]; by apply IH.
Qed.

Lemma get_filter_dropped (P : string * V → bool) m k v :
  NoDup (JsMap.keys m) →
  JsMap.get k m = Some v → P (k, v) = false → JsMap.get k (filter P m) = None.
Proof.
  intros Hnd Hget HP. induction m as [| [k' v'] r IH]; [done |].
  cbn in Hget. rewrite filter_cons.
  unfold JsMap.keys in Hnd. cbn in Hnd. apply NoDup_cons in Hnd as [Hk Hnd].
  destruct (decide (k' = k)) as [-> | Hne].
  - injection Hget as ->. rewrite decide_False by (rewrite HP; cbn; tauto).
    apply get_None_keys. intros Hin%keys_filter_subset. done.
  - destruct (decide (P (k', v'))); [cbn; rewrite decide_False by done |]; by apply IH.
Qed.

Lemma get_filter_None (P : string * V → bool) m k :
  JsMap.get k m = None → JsMap.get k (filter P m) = None.
Proof.
  rewrite !get_None_keys. intros Hn Hin%keys_filter_subset. done.
Qed.

Lemma filter_keys_NoDup (P : string * V → bool) m :
  NoDup (JsMap.keys m) → NoDup (JsMap.keys (filter P m)).
Proof.
  unfold JsMap.keys. induction m as [| [k v] r IH]; [done |].
  intros Hnd. cbn in Hnd. apply NoDup_cons in Hnd as [Hk Hnd]. rewrite filter_cons.
  destruct (decide (P (k, v))); [| by apply IH].
  cbn. apply NoDup_cons. split; [| by apply IH].
  intros Hin. apply Hk. by apply (keys_filter_subset P r k).
Qed.

Lemma keys_set_subset m k k' v :
  k' ∈ JsMap.keys (JsMap.set k v m) → k' = k ∨ k' ∈ JsMap.keys m.
Proof.
  destruct (JsMap.get k m) as [v0 |] eqn:E.
  - rewrite keys_set_present by done. by right.
  - rewrite keys_set_absent by done.
    intros [? | ->%list_elem_of_singleton]%elem_of_app; [by right | by left].
Qed.

End FilterFacts.

Lemma keys_cacheAvatar_subset (now : Z) (e : string) (d : avatar) (m : manager) k :
  k ∈ JsMap.keys (cache (cacheAvatar now e d m)) → k = e ∨ k ∈ JsMap.keys (cache m).
Proof.
  rewrite cache_cacheAvatar. intros [-> | Hin]%keys_set_subset; [by left |]. right.
  destruct (at_capacity m); [| done].
  unfold JsMap.keys in *. destruct (cache m); [done |]. cbn in *. by right.
Qed.

Lemma cache_inv_installed stored : cache_inv (installed stored).
Proof.
  split; [constructor |]. split; [by intros n ?%elem_of_nil |].
  split; [by intros n ?%elem_of_nil | done].
Qed.

Lemma spread_keeps_defaults (old new : settings_obj) :
  (∀ k, is_Some (default_settings !! k) → is_Some (old !! k)) →
  ∀ k, is_Some (default_settings !! k) → is_Some (spread old new !! k).
Proof.
  intros Hold k Hk. unfold spread. destruct (new !! k) as [v |] eqn:E.
  - exists v. by apply lookup_union_Some_l.
  - rewrite lookup_union_r by done. by apply Hold.
Qed.

Lemma cache_inv_exec (ev : event) (m m' : manager) :
  cache_inv m → exec ev m = Some m' → cache_inv m'.
Proof.
  intros (Hnd & Hnorm & Hkeys & Hdef).
  destruct ev as [| now email | now p r | s | now |].
  - intros [= <-]. unfold init. destruct (storage m) as [st |]; [| done].
    split; [done |]. split; [done |]. split; [done |]. by apply spread_keeps_defaults.
  - intros [= <-]. unfold getAvatar_sync.
    destruct (to_boolean email); [| done]. cbn [negb].
    destruct email as [| | b | z | s]; try done.
    destruct (fresh now m _); [done |].
    destruct (pendingRequests m !! normalize s); [done |].
    split; [done |]. cbn [snd promises cache settings]. split; [| split; [| done]].
    + intros n [Hn | ->%list_elem_of_singleton]%elem_of_app;
        [by apply Hnorm | apply normalize_idempotent].
    + intros k Hk. apply elem_of_app. left. by apply Hkeys.
  - cbn [exec]. destruct (promises m !! p) as [a |] eqn:Ha; [| done].
    destruct (decide (p ∈ settled m)); [done |]. intros [= <-].
    assert (a ∈ promises m) as Hain by (by eapply list_elem_of_lookup_2).
    destruct r as [d | e]; cbn.
    + split; [by apply cacheAvatar_NoDup |]. split; [done |]. split; [| done].
      intros k [-> | Hk]%keys_cacheAvatar_subset; [done | by apply Hkeys].
    + done.
  - intros [= <-]. split; [done |]. split; [done |]. split; [done |].
    by apply spread_keeps_defaults.
  - intros [= <-]. split; [by apply filter_keys_NoDup |]. split; [done |].
    split; [| done]. intros k Hk%keys_filter_subset. by apply Hkeys.
  - intros [= <-]. split; [constructor |]. split; [done |].
    split; [by intros k ?%elem_of_nil | done].
Qed.

Lemma cache_inv_reachable (m : manager) : reachable m → cache_inv m.
Proof.
  intros (stored & evs & Hrun).
  assert (∀ evs m0, cache_inv m0 → run evs m0 = Some m → cache_inv m) as Hgen.
  { clear. intros evs. induction evs as [| ev evs IH]; intros m0 Hinv; cbn.
    - by intros [= <-].
    - destruct (exec ev m0) as [m1 |] eqn:He; [| done]. cbn.
      apply IH. by eapply cache_inv_exec. }
  eapply Hgen; [apply cache_inv_installed | done].
Qed.

Lemma filled_manager_reachable : reachable filled_manager.
Proof.
  exists None, (UpdateSettings (<["maxCacheSize" := SNum 2]> ∅) :: fill_small_cache).
  by vm_compute.
Qed.



(** X10.  A failed resolution is not remembered: when the promise for an
    address settles with an exception, the cache is left as it was and the
    pending entry is removed, so the next [getAvatar] for the address that
    finds no fresh entry starts a new resolution. *)
Theorem failed_resolution_is_retried (now t : Z) (s : string) (e : js_error)
    (m : manager) :
  s ≠ EmptyString →
  fresh t m (JsMap.get (normalize s) (cache m)) = false →
  cache (getAvatar_resume now (normalize s) (Throw e) m).2 = cache m
  ∧ (getAvatar_resume now (normalize s) (Throw e) m).1 = Throw e
  ∧ (getAvatar_sync t (VString s) (getAvatar_resume now (normalize s) (Throw e) m).2).1
    = Awaiting (length (promises m)).
Proof.
  intros Hs Hstale. split; [done |]. split; [done |].
  rewrite getAvatar_sync_miss; [done | done | done |].
  cbn. apply lookup_delete_eq.
Qed.

Lemma failed_resolution_is_retried_witness :
  (getAvatar_sync 9 (VString "user@localhost")
     (getAvatar_resume 8 (normalize "user@localhost") (Throw (ReferenceError "email"))
        (getAvatar_sync 7 (VString "user@localhost") new_manager).2).2).1
  = Awaiting 1.
Proof.
  apply (failed_resolution_is_retried 8 9 "user@localhost" (ReferenceError "email")
           (getAvatar_sync 7 (VString "user@localhost") new_manager).2).
  - discriminate.
  - reflexivity.
Defined.

(** X11.  The periodic clean-up does not change the next call: in a state
    the manager reaches, a [getAvatar] made directly on the cleaned state, at
    a time not earlier than the clean-up, has the outcome it has on the
    uncleaned state, because every entry [cleanCache] drops is already stale
    at that time.  Later calls can differ: the clean-up frees a slot, so a
    later insertion evicts nothing where it would have evicted the oldest
    key; in the sample run [a@x.com] is then still served from the cache
    after the clean-up and resolved anew without it. *)
Theorem cleanCache_keeps_next_call (now t : Z) (email : jsval) (m : manager) :
  reachable m →
  now ≤ t →
  (getAvatar_sync t email (cleanCache now m)).1 = (getAvatar_sync t email m).1
  ∧ (∀ n c, JsMap.get n (cache m) = Some c →
            JsMap.get n (cache (cleanCache now m)) = None →
            fresh t m (Some c) = false)
  ∧ (getAvatar_sync 86400007 (VString "a@x.com")
       (state_after (refreshed_first ++ CleanCache 86400006 :: resolve_c))).1
    = Returned (Some (sample_avatar "a@x.com"))
  ∧ (getAvatar_sync 86400007 (VString "a@x.com")
       (state_after (refreshed_first ++ resolve_c))).1
    = Awaiting 5.
Proof.
  intros (Hnd & _)%cache_inv_reachable Hle.
  assert (Hstale : ∀ c,
            negb (gt_number (now - timestamp c)
                    (to_number (settings m !! "cacheExpiry"%string))) = false →
            fresh t m (Some c) = false).
  { intros c HP. apply negb_false_iff in HP. unfold fresh.
    destruct (to_number (settings m !! "cacheExpiry"%string)) as [T |]; [| done].
    cbn in HP |- *. apply Z.gtb_lt in HP. apply Z.ltb_ge. lia. }
  split; [| split; [| by vm_compute]].
  - unfold getAvatar_sync.
    destruct (to_boolean email); [| done]. cbn [negb].
    destruct email as [| | b | z | s]; try done.
    assert (Hf : fresh t (cleanCache now m)
                   (JsMap.get (normalize s) (cache (cleanCache now m)))
                 = fresh t m (JsMap.get (normalize s) (cache m))
                 ∧ (fresh t m (JsMap.get (normalize s) (cache m)) = true →
                    JsMap.get (normalize s) (cache (cleanCache now m))
                    = JsMap.get (normalize s) (cache m))).
    { cbn [cleanCache with_cache cache].
      destruct (JsMap.get (normalize s) (cache m)) as [c |] eqn:Hget.
      - destruct (negb (gt_number (now - timestamp c)
                          (to_number (settings m !! "cacheExpiry"%string)))) eqn:HP.
        + by rewrite (get_filter_kept _ _ _ _ Hget HP).
        + rewrite (get_filter_dropped _ _ _ _ Hnd Hget HP).
          rewrite (Hstale c HP). done.
      - by rewrite (get_filter_None _ _ _ Hget). }
    destruct Hf as [Hf Hsame]. rewrite Hf.
    destruct (fresh t m (JsMap.get (normalize s) (cache m))) eqn:E.
    + cbn [fst]. by rewrite Hsame.
    + cbn [pendingRequests promises cleanCache with_cache].
      by destruct (pendingRequests m !! normalize s).
  - intros n c Hget Hnone. cbn [cleanCache with_cache cache] in Hnone.
    destruct (negb (gt_number (now - timestamp c)
                      (to_number (settings m !! "cacheExpiry"%string)))) eqn:HP.
    + by rewrite (get_filter_kept _ _ _ _ Hget HP) in Hnone.
    + by apply Hstale.
Qed.

Lemma cleanCache_keeps_next_call_witness :
  (getAvatar_sync 86400003 (VString "a@x.com") (cleanCache 86400003 filled_manager)).1
  = (getAvatar_sync 86400003 (VString "a@x.com") filled_manager).1.
Proof.
  destruct (cleanCache_keeps_next_call 86400003 86400003 (VString "a@x.com")
              filled_manager) as [H _].
  - exact filled_manager_reachable.
  - reflexivity.
  - exact H.
Defined.

(** X12.  At the very end of its time to live an entry is in neither state:
    when its age equals the expiry, [getAvatar] no longer serves it, yet
    [cleanCache] does not remove it. *)
Theorem expiry_boundary_missed_but_kept (n : string) (c : cache_entry) (T : Z)
    (m : manager) :
  JsMap.get n (cache m) = Some c →
  to_number (settings m !! "cacheExpiry"%string) = Some T →
  fresh (timestamp c + T) m (Some c) = false
  ∧ JsMap.get n (cache (cleanCache (timestamp c + T) m)) = Some c.
Proof.
  intros Hget HT. split.
  - unfold fresh. rewrite HT. cbn. apply Z.ltb_ge. lia.
  - cbn [cleanCache with_cache cache]. apply get_filter_kept; [done |].
    rewrite HT. cbn. apply negb_true_iff. rewrite Z.gtb_ltb. apply Z.ltb_ge. lia.
Qed.

Lemma expiry_boundary_missed_but_kept_witness :
  fresh (1 + 86400000) full_manager
    (Some {| data := sample_avatar "a@x.com"; timestamp := 1 |}) = false
  ∧ JsMap.get "a@x.com" (cache (cleanCache (1 + 86400000) full_manager))
    = Some {| data := sample_avatar "a@x.com"; timestamp := 1 |}.
Proof.
  apply (expiry_boundary_missed_but_kept "a@x.com"
           {| data := sample_avatar "a@x.com"; timestamp := 1 |} 86400000 full_manager).
  - reflexivity.
  - reflexivity.
Defined.

(** ** Capacity *)

Lemma size_tail {V} (c : JsMap.t V) : JsMap.size (tail c) = pred (JsMap.size c).
Proof. by destruct c. Qed.

Lemma keys_tail {V} (c : JsMap.t V) : JsMap.keys (tail c) = tail (JsMap.keys c).
Proof. by destruct c. Qed.

Lemma get_tail_None {V} (c : JsMap.t V) k :
  JsMap.get k c = None → JsMap.get k (tail c) = None.
Proof.
  rewrite !get_None_keys, keys_tail. intros Hn Hin. apply Hn.
  destruct (JsMap.keys c); [done |]. by right.
Qed.

(** X13.  Whatever number [maxCacheSize] holds, also zero or a negative one,
    an insertion keeps the cache within the larger of that number and one:
    the capacity check makes room for one entry and the entry is then
    stored. *)
Theorem cacheAvatar_size_within_max (now : Z) (address : string) (d : avatar)
    (m : manager) (bound : Z) :
  to_number (settings m !! "maxCacheSize"%string) = Some bound →
  Z.of_nat (JsMap.size (cache m)) ≤ Z.max bound 1 →
  Z.of_nat (JsMap.size (cache (cacheAvatar now address d m))) ≤ Z.max bound 1.
Proof.
  intros Hb Hsz. rewrite cache_cacheAvatar.
  unfold at_capacity. rewrite Hb. cbn [ge_number].
  destruct (Z.geb_spec (Z.of_nat (JsMap.size (cache m))) bound) as [Hge | Hlt].
  - pose proof (size_set (tail (cache m)) address {| data := d; timestamp := now |}).
    pose proof (size_tail (cache m)). lia.
  - pose proof (size_set (cache m) address {| data := d; timestamp := now |}). lia.
Qed.

Lemma cacheAvatar_size_within_max_witness :
  Z.of_nat (JsMap.size (cache (cacheAvatar 5 "c@x.com" (sample_avatar "c@x.com")
                                 (updateSettings (<["maxCacheSize" := SNum 0]> ∅)
                                    new_manager).2)))
  ≤ Z.max 0 1.
Proof.
  apply (cacheAvatar_size_within_max 5 "c@x.com" (sample_avatar "c@x.com")
           (updateSettings (<["maxCacheSize" := SNum 0]> ∅) new_manager).2 0).
  - reflexivity.
  - vm_compute. discriminate.
Defined.

(** X14.  Eviction is first in, first out.  Caching an address that is not
    in the cache appends it as the newest key; when the cache is at or over
    capacity the first inserted key, and only that one, is dropped before.
    So the number of entries grows by one below capacity and stays as it is
    at or over capacity: a cache left over capacity by a lowered
    [maxCacheSize] is not trimmed by insertions. *)
Theorem cacheAvatar_new_address_fifo (now : Z) (address : string) (d : avatar)
    (m : manager) :
  JsMap.get address (cache m) = None →
  JsMap.keys (cache (cacheAvatar now address d m))
  = (if at_capacity m then tail (JsMap.keys (cache m)) else JsMap.keys (cache m))
    ++ [address]
  ∧ JsMap.size (cache (cacheAvatar now address d m))
    = (if at_capacity m then Nat.max 1 (JsMap.size (cache m))
       else S (JsMap.size (cache m))).
Proof.
  intros Hnew. rewrite cache_cacheAvatar.
  assert (Hk : JsMap.keys (JsMap.set address {| data := d; timestamp := now |}
                 (if at_capacity m then tail (cache m) else cache m))
               = (if at_capacity m then tail (JsMap.keys (cache m))
                  else JsMap.keys (cache m)) ++ [address]).
  { destruct (at_capacity m).
    - rewrite keys_set_absent by (by apply get_tail_None). by rewrite keys_tail.
    - by rewrite keys_set_absent. }
  split; [exact Hk |].
  assert (∀ c : JsMap.t cache_entry, JsMap.size c = length (JsMap.keys c)) as Hlen
    by (intros c; unfold JsMap.size, JsMap.keys; by rewrite length_fmap).
  rewrite Hlen, Hk, length_app, (Hlen (cache m)). cbn [length].
  destruct (at_capacity m); [| lia].
  destruct (JsMap.keys (cache m)); cbn; lia.
Qed.

Lemma cacheAvatar_new_address_fifo_witness :
  JsMap.keys (cache (cacheAvatar 9 "c@x.com" (sample_avatar "c@x.com") full_manager))
  = (if at_capacity full_manager then tail (JsMap.keys (cache full_manager))
     else JsMap.keys (cache full_manager)) ++ ["c@x.com"%string]
  ∧ JsMap.size (cache (cacheAvatar 9 "c@x.com" (sample_avatar "c@x.com") full_manager))
    = (if at_capacity full_manager then Nat.max 1 (JsMap.size (cache full_manager))
       else S (JsMap.size (cache full_manager))).
Proof.
  apply (cacheAvatar_new_address_fifo 9 "c@x.com" (sample_avatar "c@x.com") full_manager).
  reflexivity.
Defined.

(** ** Settings across sessions *)

(** X15.  Settings survive a restart: what [updateSettings] stores is what
    [init] brings back in a new manager, whose settings then equal the ones
    in force when they were stored. *)
Theorem settings_survive_restart (newSettings : settings_obj) (m : manager) :
  reachable m →
  settings (init (installed (storage (updateSettings newSettings m).2)))
  = settings (updateSettings newSettings m).2.
Proof.
  intros (_ & _ & _ & Hdef)%cache_inv_reachable.
  cbn [updateSettings snd storage settings init installed].
  set (merged := spread (settings m) newSettings).
  pose proof (spread_keeps_defaults _ newSettings Hdef) as Hmerged.
  fold merged in Hmerged.
  apply map_eq. intros k. unfold spread.
  destruct (merged !! k) as [v |] eqn:E.
  - by apply lookup_union_Some_l.
  - rewrite lookup_union_r by done.
    destruct (default_settings !! k) as [v |] eqn:Ed; [| done].
    destruct (Hmerged k) as [v' Hv']; [by eexists | congruence].
Qed.

Lemma settings_survive_restart_witness :
  settings (init (installed (storage (updateSettings (<["avatarSize" := SNum 48]> ∅)
                                        filled_manager).2)))
  = settings (updateSettings (<["avatarSize" := SNum 48]> ∅) filled_manager).2.
Proof.
  apply (settings_survive_restart (<["avatarSize" := SNum 48]> ∅) filled_manager).
  exact filled_manager_reachable.
Defined.

(** X16.  The cache holds resolved, canonical addresses only: in every state
    the manager reaches, each key of the cache is an address that
    [fetchAvatar] was called for and is its own trimmed, lower-cased form. *)
Theorem cache_keys_resolved_and_canonical (m : manager) (k : string) :
  reachable m →
  k ∈ JsMap.keys (cache m) →
  k ∈ promises m ∧ normalize k = k.
Proof.
  intros (_ & Hnorm & Hkeys & _)%cache_inv_reachable Hk.
  split; [by apply Hkeys | by apply Hnorm, Hkeys].
Qed.

Lemma cache_keys_resolved_and_canonical_witness :
  "b@x.com"%string ∈ promises filled_manager ∧ normalize "b@x.com" = "b@x.com"%string.
Proof.
  apply (cache_keys_resolved_and_canonical filled_manager "b@x.com").
  - exact filled_manager_reachable.
  - vm_compute. apply list_elem_of_In. right. left. reflexivity.
Defined.

(** ** Hashes and colours *)

Lemma to_int32_range (z : Z) : - 2 ^ 31 ≤ to_int32 z < 2 ^ 31.
Proof.
  unfold to_int32. pose proof (Z.mod_pos_bound (z + 2 ^ 31) (2 ^ 32) eq_refl). lia.
Qed.

Lemma hash_loop_range (s : string) (h : Z) :
  - 2 ^ 31 ≤ h < 2 ^ 31 → - 2 ^ 31 ≤ hash_loop s h < 2 ^ 31.
Proof.
  revert h. induction s as [| c r IH]; intros h Hh; [done |].
  cbn [hash_loop]. apply IH. unfold hash_step. apply to_int32_range.
Qed.

Lemma simpleHash_range (s : string) : 0 ≤ simpleHash s ≤ 2 ^ 31.
Proof.
  unfold simpleHash. pose proof (hash_loop_range s 0 ltac:(lia)). lia.
Qed.

Lemma hex_digit_alphabet (n : Z) :
  JsString.includes (hex_digit n) "0123456789abcdef" = true.
Proof.
  unfold hex_digit. generalize (Z.to_nat n). intros k.
  do 16 (destruct k as [| k]; [reflexivity |]). reflexivity.
Qed.

Lemma hex_from_spec (fuel : nat) :
  ∀ (k : nat) (n : Z) (acc : string),
    0 ≤ n < 16 ^ Z.of_nat (S k) →
    (String.length (hex_from fuel n acc) ≤ S k + String.length acc)%nat
    ∧ (Forall (fun c => JsString.includes c "0123456789abcdef" = true)
              (JsString.chars acc) →
       Forall (fun c => JsString.includes c "0123456789abcdef" = true)
              (JsString.chars (hex_from fuel n acc))).
Proof.
  induction fuel as [| fuel IH]; intros k n acc Hn.
  - cbn. split; [lia | done].
  - cbn [hex_from]. destruct (Z.eqb_spec (n / 16) 0) as [Hz | Hnz].
    + cbn. split; [lia |]. intros Hacc. constructor; [apply hex_digit_alphabet | done].
    + assert (16 ≤ n) as H16.
      { destruct (Z_lt_le_dec n 16) as [Hlt |]; [| done].
        rewrite Z.div_small in Hnz by lia. done. }
      destruct k as [| k].
      { change (16 ^ Z.of_nat 1) with 16 in Hn. lia. }
      assert (0 ≤ n / 16 < 16 ^ Z.of_nat (S k)) as Hdiv.
      { split; [apply Z.div_pos; lia |].
        apply Z.div_lt_upper_bound; [lia |].
        rewrite (Nat2Z.inj_succ (S k)), Z.pow_succ_r in Hn by lia. lia. }
      destruct (IH k (n / 16) (String (hex_digit (n mod 16)) acc) Hdiv) as [Hlen Hall].
      split; [cbn [String.length] in Hlen; lia |].
      intros Hacc. apply Hall. constructor; [apply hex_digit_alphabet | done].
Qed.

Lemma length_append (s t : string) :
  String.length (s +:+ t) = (String.length s + String.length t)%nat.
Proof. by rewrite !length_chars, chars_append, length_app. Qed.

Lemma repeat_char_spec (fill : ascii) (k : nat) :
  String.length (JsString.repeat (String fill EmptyString) k) = k
  ∧ ∀ c, c ∈ JsString.chars (JsString.repeat (String fill EmptyString) k) → c = fill.
Proof.
  induction k as [| k [IH1 IH2]]; [split; [done | by intros c ?%elem_of_nil] |].
  cbn [JsString.repeat]. split.
  - rewrite length_append. cbn. by rewrite IH1.
  - intros c. rewrite chars_append. cbn.
    intros [-> | ?]%elem_of_cons; [done | by apply IH2].
Qed.

Lemma padStart_spec (len : nat) (fill : ascii) (s : string) :
  String.length (padStart len fill s) = Nat.max len (String.length s)
  ∧ ∀ c, c ∈ JsString.chars (padStart len fill s) → c = fill ∨ c ∈ JsString.chars s.
Proof.
  unfold padStart.
  destruct (repeat_char_spec fill (len - String.length s)) as [Hk1 Hk2]. split.
  - rewrite length_append, Hk1. lia.
  - intros c. rewrite chars_append. intros [?%Hk2 | ?]%elem_of_app; [by left | by right].
Qed.

(** X17.  [md5Hash] is no MD5: for every string it returns exactly eight
    characters, each a lower-case hexadecimal digit, which spell a number of
    at most 2^31 (what [simpleHash] returns for the same string). *)
Theorem md5Hash_eight_hex_digits (str : string) :
  String.length (md5Hash str) = 8%nat
  ∧ Forall (fun c => JsString.includes c "0123456789abcdef" = true)
           (JsString.chars (md5Hash str))
  ∧ 0 ≤ simpleHash str ≤ 2 ^ 31.
Proof.
  pose proof (simpleHash_range str) as Hr. unfold simpleHash in Hr.
  unfold md5Hash, toString16.
  set (n := Z.abs (hash_loop str 0)) in *.
  destruct (hex_from_spec (S (Z.to_nat (Z.log2 n))) 7 n EmptyString) as [Hlen Hall].
  { change (16 ^ Z.of_nat 8) with (2 ^ 32). lia. }
  destruct (padStart_spec 8 "0" (hex_from (S (Z.to_nat (Z.log2 n))) n EmptyString))
    as [Hpl Hpc].
  split; [| split].
  - rewrite Hpl. cbn [String.length] in Hlen. lia.
  - apply Forall_forall. intros c [-> | Hc]%Hpc; [reflexivity |].
    assert (Forall (fun c : ascii => JsString.includes c "0123456789abcdef" = true)
              (JsString.chars EmptyString)) as Hnil by constructor.
    specialize (Hall Hnil). rewrite Forall_forall in Hall. by apply Hall.
  - unfold simpleHash. fold n. exact Hr.
Qed.

(** X18.  For a domain that is present the colour is always one of the eight
    schemes: the index computed from the hash never leaves the table, so
    [createBusinessInitials] never meets an undefined colour. *)
Theorem getBusinessColors_in_palette (d : string) :
  str_truthy (Some d) = true →
  ∃ c, getBusinessColors (Some d) = Ok (Some c) ∧ c ∈ colorSchemes.
Proof.
  intros Hd. unfold getBusinessColors. rewrite Hd.
  change (default EmptyString (Some d)) with d. cbv zeta.
  destruct (color_index_in_range (hash_loop d 0)) as [c Hc].
  exists c. rewrite Hc. split; [done |]. by eapply list_elem_of_lookup_2.
Qed.

Lemma getBusinessColors_in_palette_witness :
  ∃ c, getBusinessColors (Some "x.com"%string) = Ok (Some c) ∧ c ∈ colorSchemes.
Proof.
  apply (getBusinessColors_in_palette "x.com"). reflexivity.
Defined.

(** ** Messages *)

(** X19.  No message that the pages build is served: [createAvatarCard] of
    the content script and [saveSettings], the cache clearing and the
    statistics request of the options page name their request in [action],
    while [handleMessage] dispatches on [type]; each of these messages gets
    the failure response for an unknown type, and the manager is left as it
    was (no resolution, no settings change, no clearing). *)
Theorem pages_messages_are_not_served (now : Z) (m : manager) :
  (∀ msg, msg_type msg = None →
          handleMessage now msg m = (Responded (Failure "Unknown message type"), m))
  ∧ (∀ address, handleMessage now (createAvatarCard_message address) m
                = (Responded (Failure "Unknown message type"), m))
  ∧ (∀ newSettings, handleMessage now (saveSettings_message newSettings) m
                    = (Responded (Failure "Unknown message type"), m))
  ∧ handleMessage now clearCache_message m
    = (Responded (Failure "Unknown message type"), m)
  ∧ handleMessage now loadStats_message m
    = (Responded (Failure "Unknown message type"), m).
Proof.
  assert (∀ msg, msg_type msg = None →
            handleMessage now msg m = (Responded (Failure "Unknown message type"), m))
    as H by (intros msg Hm; unfold handleMessage; by rewrite Hm).
  split; [exact H |]. split; [| split; [| split]]; intros; by apply H.
Qed.

(** X20.  A message of type [getAvatar] is answered at once exactly when
    [getAvatar] does not have to wait: with the cached descriptor or [null],
    or with a failure when the address is no string; otherwise the response
    waits for the promise that is pending for the address afterwards. *)
Theorem getAvatar_message_waits_on_pending (now : Z) (msg : message) (m : manager)
    (p : nat) :
  msg_type msg = Some "getAvatar"%string →
  (handleMessage now msg m).1 = Waiting p →
  ∃ s, msg_email msg = VString s
       ∧ pendingRequests (handleMessage now msg m).2 !! normalize s = Some p
       ∧ fresh now m (JsMap.get (normalize s) (cache m)) = false.
Proof.
  intros Ht. unfold handleMessage. rewrite Ht. rewrite decide_True by done.
  unfold getAvatar_sync. destruct (to_boolean (msg_email msg)); [| done]. cbn [negb].
  destruct (msg_email msg) as [| | b | z | s]; try done.
  destruct (fresh now m _) eqn:Hf; [done |].
  destruct (pendingRequests m !! normalize s) as [q |] eqn:Hp; cbn.
  - intros [= <-]. by exists s.
  - intros [= <-]. exists s. split; [done |]. split; [apply lookup_insert_eq | done].
Qed.

Lemma getAvatar_message_waits_on_pending_witness :
  ∃ s, VString "New@x.com" = VString s
       ∧ pendingRequests
           (handleMessage 5 {| msg_type := Some "getAvatar"%string; msg_action := None;
                               msg_email := VString "New@x.com"; msg_settings := None |}
              full_manager).2 !! normalize s = Some 0%nat
       ∧ fresh 5 full_manager (JsMap.get (normalize s) (cache full_manager)) = false.
Proof.
  apply (getAvatar_message_waits_on_pending 5
           {| msg_type := Some "getAvatar"%string; msg_action := None;
              msg_email := VString "New@x.com"; msg_settings := None |}
           full_manager 0).
  - reflexivity.
  - reflexivity.
Defined.

(** X21.  Clearing the cache does not cancel what is in flight: the pending
    requests stay, and when one of them settles with a descriptor afterwards
    that descriptor is the one entry of the cache. *)
Theorem clearCache_keeps_pending (now : Z) (n : string) (a : avatar) (m : manager) :
  cache (clearCache m) = []
  ∧ pendingRequests (clearCache m) = pendingRequests m
  ∧ cache (getAvatar_resume now n (Ok a) (clearCache m)).2
    = [(n, {| data := a; timestamp := now |})].
Proof.
  split; [done |]. split; [done |].
  change (cache (getAvatar_resume now n (Ok a) (clearCache m)).2)
    with (cache (cacheAvatar now n a (clearCache m))).
  rewrite cache_cacheAvatar. by destruct (at_capacity (clearCache m)).
Qed.

(** ** The injector *)

Lemma prefix_nil (s : string) : String.prefix EmptyString s = true.
Proof. by destruct s. Qed.

Lemma prefix_append_r (n h post : string) :
  String.prefix n h = true → String.prefix n (h +:+ post) = true.
Proof.
  revert h. induction n as [| a n IH]; intros h; [intros _; apply prefix_nil |].
  destruct h as [| b h]; [done |].
  rewrite append_cons. cbn [String.prefix].
  destruct (ascii_dec a b); [apply IH | done].
Qed.

Lemma includes_str_append_r (n h post : string) :
  includes_str n h = true → includes_str n (h +:+ post) = true.
Proof.
  induction h as [| c h IH].
  - cbn [includes_str]. rewrite orb_false_r. intros Hn.
    destruct n; [| done]. change (EmptyString +:+ post) with post.
    destruct post; cbn [includes_str]; by rewrite prefix_nil.
  - rewrite append_cons. cbn [includes_str].
    intros [Hp | Hr]%orb_true_iff.
    + change (String c (h +:+ post)) with (String c h +:+ post).
      by rewrite (prefix_append_r _ _ post Hp).
    + rewrite (IH Hr). apply orb_true_r.
Qed.

Lemma includes_str_append_l (n pre h : string) :
  includes_str n h = true → includes_str n (pre +:+ h) = true.
Proof.
  intros Hn. induction pre as [| c pre IH]; [done |].
  rewrite append_cons. cbn [includes_str]. rewrite IH. apply orb_true_r.
Qed.

(** X22.  [isThunderbirdUrl] is a test for substrings: a URL that contains an
    accepted URL anywhere is accepted too, so every URL that carries one of
    the five markers in any position (a query string, say) passes; the empty
    URL and [null] never pass. *)
Theorem isThunderbirdUrl_substring (pre u post : string) :
  isThunderbirdUrl (Some u) = true →
  isThunderbirdUrl (Some (pre +:+ u +:+ post)) = true
  ∧ isThunderbirdUrl None = false
  ∧ isThunderbirdUrl (Some EmptyString) = false.
Proof.
  intros Hu. split; [| done].
  assert (Hmono : ∀ n, includes_str n u = true →
                       includes_str n (pre +:+ u +:+ post) = true)
    by (intros n Hn; by apply includes_str_append_l, includes_str_append_r).
  unfold isThunderbirdUrl in *.
  destruct u as [| c u]; [done |].
  assert (str_truthy (Some (pre +:+ String c u +:+ post)) = true) as ->.
  { destruct pre; [done | done]. }
  cbn [negb str_truthy] in Hu |- *.
  change (default EmptyString (Some (pre +:+ String c u +:+ post)))
    with (pre +:+ String c u +:+ post).
  change (default EmptyString (Some (String c u))) with (String c u) in Hu.
  rewrite !orb_true_iff in Hu |- *.
  destruct Hu as [[[[H | H] | H] | H] | H]; apply Hmono in H; tauto.
Qed.

Lemma isThunderbirdUrl_substring_witness :
  isThunderbirdUrl (Some ("https://example.org/?next=" +:+ "about:message" +:+ "#x"))
  = true.
Proof.
  apply (isThunderbirdUrl_substring "https://example.org/?next=" "about:message" "#x").
  reflexivity.
Defined.


(** ** The first stage for a known domain *)

(** X24.  For a domain of the table of known providers the favicon comes
    from the table: with the favicon stage switched on and the table's URL
    passing the check, the resolution requests that URL only (once to pick
    it, once to check it), never the provider's own domain, and returns it as
    the favicon. *)
Theorem known_domain_uses_table_only (fetch : string -> option response)
    (settings : settings_obj) (address d u : string) :
  extractDomain address = Some d →
  getKnownBusinessFavicon d = Some u →
  truthy (settings !! "enableFavicon"%string) = true →
  validated fetch u = true →
  getBusinessAvatar fetch settings address
  = ([u], Ok (descriptor settings u favicon (Some d) address)).
Proof.
  intros Hd Hk Hen Hv. unfold getBusinessAvatar. cbv zeta. rewrite Hd.
  unfold stage at 1. rewrite Hen. unfold getFaviconUrl.
  rewrite (extractDomain_truthy _ _ Hd). cbn [negb].
  change (default EmptyString (Some d)) with d. rewrite Hk.
  rewrite bind_ret_l, validateImageUrl_run, Hv. reflexivity.
Qed.

Lemma known_domain_uses_table_only_witness :
  getBusinessAvatar always_image default_settings "someone@gmail.com"
  = (["https://ssl.gstatic.com/ui/v1/icons/mail/rfr/gmail.ico"%string],
     Ok (descriptor default_settings
           "https://ssl.gstatic.com/ui/v1/icons/mail/rfr/gmail.ico" favicon
           (Some "gmail.com"%string) "someone@gmail.com")).
Proof.
  apply (known_domain_uses_table_only always_image default_settings
           "someone@gmail.com" "gmail.com"
           "https://ssl.gstatic.com/ui/v1/icons/mail/rfr/gmail.ico");
    reflexivity.
Defined.

(** ** Cleaning twice *)

Lemma filter_filter_impl {A} (P Q : A → bool) (l : list A) :
  (∀ x, Q x = true → P x = true) →
  filter Q (filter P l) = filter Q l.
Proof.
  intros Himp. induction l as [| x l IH]; [done |].
  rewrite !filter_cons. destruct (Q x) eqn:HQ.
  - rewrite (Himp x HQ). rewrite !decide_True by done.
    rewrite filter_cons, HQ, decide_True by done. by rewrite IH.
  - rewrite (decide_False (P := Is_true false)) by (cbn; tauto).
    destruct (decide (P x)); [| exact IH].
    rewrite filter_cons, HQ. rewrite decide_False by (cbn; tauto). exact IH.
Qed.

(** X25.  A clean-up includes every earlier one: cleaning at [t1] and then at
    a later [t2] leaves the cache that cleaning at [t2] alone leaves, so a
    run of the ten-minute timer that is skipped loses nothing, and cleaning
    twice at the same time is cleaning once. *)
Theorem cleanCache_later_subsumes (t1 t2 : Z) (m : manager) :
  t1 ≤ t2 →
  cleanCache t2 (cleanCache t1 m) = cleanCache t2 m.
Proof.
  intros Hle. unfold cleanCache, with_cache. cbn [cache settings]. f_equal.
  apply (filter_filter_impl
           (fun kv : string * cache_entry =>
              negb (gt_number (t1 - timestamp kv.2)
                      (to_number (settings m !! "cacheExpiry"%string))))
           (fun kv : string * cache_entry =>
              negb (gt_number (t2 - timestamp kv.2)
                      (to_number (settings m !! "cacheExpiry"%string))))).
  intros [k c]. cbn [snd].
  destruct (to_number (settings m !! "cacheExpiry"%string)) as [T |]; [| done].
  cbn [gt_number]. rewrite !negb_true_iff, !Z.gtb_ltb, !Z.ltb_ge. lia.
Qed.

Lemma cleanCache_later_subsumes_witness :
  cleanCache 86400003 (cleanCache 86400002 full_manager) = cleanCache 86400003 full_manager.
Proof.
  apply (cleanCache_later_subsumes 86400002 86400003 full_manager). discriminate.
Defined.

(** ** Initials of two names *)

Section TwoNames.
Import JsString.

Lemma split_append_no_sep sep x y :
  includes sep x = false →
  split sep (x +:+ String sep y) = x :: split sep y.
Proof.
  induction x as [| c x IH]; intros Hx.
  - change (EmptyString +:+ String sep y) with (String sep y).
    cbn [split]. by rewrite Ascii.eqb_refl.
  - cbn [includes] in Hx. apply orb_false_iff in Hx as [Hc Hx].
    rewrite append_cons. cbn [split]. rewrite Hc. by rewrite (IH Hx).
Qed.

Lemma split_head_no_sep sep c r :
  Ascii.eqb c sep = false →
  ∃ seg rest, split sep (String c r) = String c seg :: rest.
Proof.
  intros Hc. cbn [split]. rewrite Hc.
  destruct (split sep r) as [| seg rest]; eauto.
Qed.

Lemma localPart_append x y :
  includes at_sign x = false → localPart (x +:+ String at_sign y) = x.
Proof. intros Hx. unfold localPart. by rewrite split_append_no_sep. Qed.

End TwoNames.

(** X26.  The initials of two names, for an ASCII address: when the local
    part is a first name, a dot and something that does not begin with a
    dot, the initials are the upper-case first letters of the two; the same
    holds with a hyphen in place of the dot when the local part has no dot at
    all. *)
Theorem initials_of_two_names (sep c1 c2 : ascii) (first rest dom : string) :
  JsString.ascii_only (String c1 first +:+ String sep (String c2 rest)) →
  sep = dot
  ∨ sep = hyphen
    ∧ JsString.includes dot (String c1 first +:+ String sep (String c2 rest)) = false →
  JsString.includes at_sign (String c1 first +:+ String sep (String c2 rest)) = false →
  JsString.includes sep (String c1 first) = false →
  c2 ≠ sep →
  generateBusinessInitials
    ((String c1 first +:+ String sep (String c2 rest)) +:+ String at_sign dom)
  = String (JsString.toUpperCase_char c1)
      (String (JsString.toUpperCase_char c2) EmptyString).
Proof.
  intros _ Hsep Hat Hfirst Hc2.
  unfold generateBusinessInitials. cbv zeta.
  rewrite (localPart_append _ _ Hat).
  set (lp := String c1 first +:+ String sep (String c2 rest)).
  assert (JsString.includes sep lp = true) as Hin.
  { unfold lp. rewrite includes_append. cbn [JsString.includes].
    rewrite Ascii.eqb_refl. cbn. apply orb_true_r. }
  assert (first_letters (JsString.split sep lp)
          = String (JsString.toUpperCase_char c1)
              (String (JsString.toUpperCase_char c2) EmptyString)) as Hletters.
  { unfold lp. rewrite (split_append_no_sep _ _ _ Hfirst).
    destruct (split_head_no_sep sep c2 rest) as (seg & tl & ->).
    { by apply Ascii.eqb_neq. }
    reflexivity. }
  destruct Hsep as [-> | [-> Hnodot]].
  - by rewrite Hin.
  - fold lp in Hnodot. by rewrite Hnodot, Hin.
Qed.

Lemma initials_of_two_names_witness :
  generateBusinessInitials
    ((String "j" "an" +:+ String hyphen (String "k" "owalski")) +:+ String at_sign "x.com")
  = String (JsString.toUpperCase_char "j")
      (String (JsString.toUpperCase_char "k") EmptyString).
Proof.
  apply (initials_of_two_names hyphen "j" "k" "an" "owalski" "x.com").
  - unfold JsString.ascii_only. vm_compute. repeat constructor.
  - right. split; reflexivity.
  - reflexivity.
  - reflexivity.
  - discriminate.
Defined.

(** ** The initials of any address *)

Section InitialsAlgorithm.
Import JsString.

Lemma append_nil_r s : s +:+ EmptyString = s.
Proof.
  induction s as [| c r IH]; [done |]. rewrite append_cons. by rewrite IH.
Qed.

Lemma split_no_sep sep s : includes sep s = false → split sep s = [s].
Proof.
  induction s as [| c r IH]; [done |]. cbn [includes split].
  intros [Hc Hr]%orb_false_iff. by rewrite Hc, (IH Hr).
Qed.

Lemma localPart_no_at email : includes at_sign email = false → localPart email = email.
Proof. intros H. unfold localPart. by rewrite (split_no_sep _ _ H). Qed.

(** The first two segments decide: [s1], then [s2], which ends at the end of
    the string or at the next separator. *)
Lemma first_letters_segments sep s1 s2 tl :
  includes sep s1 = false →
  includes sep s2 = false →
  tl = EmptyString ∨ (∃ r, tl = String sep r) →
  first_letters (split sep (s1 +:+ String sep (s2 +:+ tl)))
  = toUpperCase (charAt 0 s1) +:+ toUpperCase (charAt 0 s2).
Proof.
  intros H1 H2 Htl. rewrite (split_append_no_sep _ _ _ H1).
  assert (∃ rest, split sep (s2 +:+ tl) = s2 :: rest) as [rest ->].
  { destruct Htl as [-> | [r ->]].
    - rewrite append_nil_r, (split_no_sep _ _ H2). by exists [].
    - rewrite (split_append_no_sep _ _ _ H2). by eexists. }
  unfold first_letters. cbn [take map join foldr]. by rewrite append_nil_r.
Qed.

Lemma includes_sep_between sep s1 rest : includes sep (s1 +:+ String sep rest) = true.
Proof.
  rewrite includes_append. cbn [includes]. rewrite Ascii.eqb_refl. apply orb_true_r.
Qed.

End InitialsAlgorithm.

(** C7, amended.  The four sample addresses give [JD], [JK], [AL] and [AA].
    For every ASCII address the initials are decided by the local part, the
    text before the first [@] (the whole address when there is none):
    - when it has a dot, they are the upper-case first characters of its
      first two dot-separated segments, however many segments follow; a
      segment that is empty gives nothing;
    - when it has no dot but a hyphen, the same with the hyphen;
    - otherwise its first two characters in upper case, a single character
      twice, and nothing when it is empty.
    So the initials are at most two characters, each the upper-case form of a
    character of the local part, none of them a lower-case letter; when the
    local part is not empty and made of letters only, they are exactly two
    upper-case letters. *)
Theorem generateBusinessInitials_shape (email : string) :
  JsString.ascii_only email →
  (generateBusinessInitials "john.doe@x.com" = "JD"%string
   ∧ generateBusinessInitials "jan-kowalski@x.com" = "JK"%string
   ∧ generateBusinessInitials "al@x.com" = "AL"%string
   ∧ generateBusinessInitials "a@x.com" = "AA"%string)
  ∧ (String.length (generateBusinessInitials email) ≤ 2)%nat
  ∧ Forall (fun c => JsString.is_lower c = false
                     ∧ (JsString.code c < 128)%N
                     ∧ ∃ c', c' ∈ JsString.chars (localPart email)
                             ∧ c = JsString.toUpperCase_char c')
           (JsString.chars (generateBusinessInitials email))
  ∧ (localPart email ≠ EmptyString →
     Forall (fun c => JsString.is_letter c = true) (JsString.chars (localPart email)) →
     String.length (generateBusinessInitials email) = 2%nat
     ∧ Forall (fun c => JsString.is_upper c = true)
              (JsString.chars (generateBusinessInitials email)))
  ∧ ((∀ x y, email = x +:+ String at_sign y →
             JsString.includes at_sign x = false → localPart email = x)
     ∧ (JsString.includes at_sign email = false → localPart email = email))
  ∧ (∀ sep s1 s2 tl,
       sep = dot ∨ (sep = hyphen ∧ JsString.includes dot (localPart email) = false) →
       localPart email = s1 +:+ String sep (s2 +:+ tl) →
       JsString.includes sep s1 = false →
       JsString.includes sep s2 = false →
       tl = EmptyString ∨ (∃ r, tl = String sep r) →
       generateBusinessInitials email
       = JsString.toUpperCase (JsString.charAt 0 s1)
         +:+ JsString.toUpperCase (JsString.charAt 0 s2))
  ∧ (JsString.includes dot (localPart email) = false →
     JsString.includes hyphen (localPart email) = false →
     (∀ a b r, localPart email = String a (String b r) →
               generateBusinessInitials email
               = String (JsString.toUpperCase_char a)
                   (String (JsString.toUpperCase_char b) EmptyString))
     ∧ (∀ a, localPart email = String a EmptyString →
             generateBusinessInitials email
             = String (JsString.toUpperCase_char a)
                 (String (JsString.toUpperCase_char a) EmptyString))
     ∧ (localPart email = EmptyString →
        generateBusinessInitials email = EmptyString)).
Proof.
  intros Hascii. split; [by vm_compute |].
  destruct (chars_generateBusinessInitials email) as (l & Hl & Hlen & Hsub).
  split; [| split; [| split; [| split; [| split]]]].
  - by rewrite length_chars, Hl, length_map.
  - rewrite Hl. apply Forall_forall. intros c (c' & -> & Hc')%list_elem_of_fmap.
    split; [apply toUpperCase_char_not_lower |]. split.
    + apply toUpperCase_char_ascii.
      unfold JsString.ascii_only in Hascii. rewrite Forall_forall in Hascii.
      by apply Hascii, localPart_chars, Hsub.
    + exists c'. split; [by apply Hsub | done].
  - apply letters_give_two_upper.
  - split.
    + intros x y -> Hx. by apply localPart_append.
    + apply localPart_no_at.
  - intros sep s1 s2 tl Hsep Hlp H1 H2 Htl.
    unfold generateBusinessInitials. cbv zeta.
    destruct Hsep as [-> | [-> Hnodot]].
    + rewrite Hlp, includes_sep_between. by apply first_letters_segments.
    + rewrite Hnodot. rewrite Hlp, includes_sep_between.
      by apply first_letters_segments.
  - intros Hnodot Hnohyphen.
    unfold generateBusinessInitials. cbv zeta. rewrite Hnodot, Hnohyphen.
    split; [| split].
    + intros a b r ->. cbn [String.length Nat.leb].
      unfold JsString.toUpperCase, JsString.substring. cbn. by destruct r.
    + by intros a ->.
    + by intros ->.
Qed.

Lemma generateBusinessInitials_shape_witness :
  (String.length (generateBusinessInitials "Marie.Curie@example.org") ≤ 2)%nat
  ∧ generateBusinessInitials "a.b.c@x.com" = "AB"%string
  ∧ generateBusinessInitials "anna-maria-li@x.com" = "AM"%string
  ∧ generateBusinessInitials "xy@x.com" = "XY"%string.
Proof.
  split; [| split; [| split]].
  - destruct (generateBusinessInitials_shape "Marie.Curie@example.org") as (_ & H & _).
    + unfold JsString.ascii_only. cbn. repeat constructor.
    + exact H.
  - destruct (generateBusinessInitials_shape "a.b.c@x.com")
      as (_ & _ & _ & _ & _ & H & _).
    + unfold JsString.ascii_only. cbn. repeat constructor.
    + apply (H dot "a"%string "b"%string ".c"%string).
      * by left.
      * reflexivity.
      * reflexivity.
      * reflexivity.
      * right. by exists "c"%string.
  - destruct (generateBusinessInitials_shape "anna-maria-li@x.com")
      as (_ & _ & _ & _ & _ & H & _).
    + unfold JsString.ascii_only. cbn. repeat constructor.
    + apply (H hyphen "anna"%string "maria"%string "-li"%string).
      * right. split; reflexivity.
      * reflexivity.
      * reflexivity.
      * reflexivity.
      * right. by exists "li"%string.
  - destruct (generateBusinessInitials_shape "xy@x.com")
      as (_ & _ & _ & _ & _ & _ & H).
    + unfold JsString.ascii_only. cbn. repeat constructor.
    + destruct H as (H & _); [reflexivity | reflexivity |].
      apply (H "x"%char "y"%char EmptyString). reflexivity.
Defined.
